(** * dropin-request: a fetch-based shim of the legacy request API

    Shallow embedding of [dropin-request.js] (the canonical module) and of
    its cookie-jar revision, with the properties of the option translation,
    the response adapter, the dual stream/promise object and the instance
    factory.

    Conventions of the embedding.
    - JavaScript values are the inductive [value]; an object is the list of
      its own enumerable properties in enumeration order (keys are assumed
      not to be array indices, which JavaScript would enumerate first).
      Numbers are integers.
    - Strings are byte strings (the UTF-8 encoding of the JavaScript text).
    - Exceptions are explicit: fallible code returns a [completion].
    - The host platform (JSON, base64, the URL parser) is the class
      [Platform]; the transport ([fetch]) is a function argument, and what
      it eventually produces is a [transport_result].
    - Where the identity of objects matters (who writes to which object),
      the same code is embedded over a store of objects, in [Heap]. *)

From Stdlib Require Import ZArith String Ascii List Bool DecimalString.
From stdpp Require Import base option list strings gmap.
Import ListNotations.

Local Open Scope string_scope.
Local Open Scope Z_scope.

(** ** JavaScript values *)

#[warnings="-register-all"]
Inductive value : Type :=
| VUndefined
| VNull
| VBool (b : bool)
| VNum (n : Z)
| VStr (s : string)
| VBuffer (bytes : string)
| VArr (items : list value)
| VObj (props : list (string * value)).

Definition obj := list (string * value).

(** ToBoolean. *)
Definition truthy (v : value) : bool :=
  match v with
  | VUndefined | VNull => false
  | VBool b => b
  | VNum n => negb (n =? 0)
  | VStr s => negb (String.eqb s "")
  | VBuffer _ | VArr _ | VObj _ => true
  end.

(** [typeof v === 'object' && v !== null] *)
Definition is_object (v : value) : bool :=
  match v with
  | VBuffer _ | VArr _ | VObj _ => true
  | _ => false
  end.

Definition dec_of_Z (n : Z) : string := NilZero.string_of_int (Z.to_int n).
Definition dec_of_nat (n : nat) : string := dec_of_Z (Z.of_nat n).

Definition bytes_of (s : string) : list value :=
  map (fun c => VNum (Z.of_nat (nat_of_ascii c))) (list_ascii_of_string s).

Fixpoint index_from {A} (i : nat) (l : list A) : list (string * A) :=
  match l with
  | [] => []
  | x :: l' => (dec_of_nat i, x) :: index_from (S i) l'
  end.

(** ** Objects: property lookup, assignment and spread *)

Section Properties.
Context {V : Type}.

Fixpoint get (k : string) (o : list (string * V)) : option V :=
  match o with
  | [] => None
  | (k', v) :: o' => if String.eqb k k' then Some v else get k o'
  end.

(** [o[k] = v]: an existing property keeps its place, a new one goes
    last. *)
Fixpoint set (k : string) (v : V) (o : list (string * V)) : list (string * V) :=
  match o with
  | [] => [(k, v)]
  | (k', v') :: o' =>
      if String.eqb k k' then (k, v) :: o' else (k', v') :: set k v o'
  end.

(** Copy the properties of [src] onto [dst], in order
    (CopyDataProperties). *)
Definition assign (dst src : list (string * V)) : list (string * V) :=
  fold_left (fun acc kv => set kv.1 kv.2 acc) src dst.

(** [{ ...a, ...b }] *)
Definition spread2 (a b : list (string * V)) : list (string * V) :=
  assign (assign [] a) b.

(** [{ ...a }] *)
Definition spread1 (a : list (string * V)) : list (string * V) := assign [] a.
End Properties.

(** [o.k], [undefined] when there is no such property. *)
Definition prop (k : string) (o : obj) : value := default VUndefined (get k o).

(** The keys of an object, in order. *)
Definition keys {V : Type} (o : list (string * V)) : list string := map fst o.

(** Own enumerable properties of a value, as spread and [Object.entries]
    see them. *)
Definition own_props (v : value) : obj :=
  match v with
  | VObj o => o
  | VArr l => index_from 0 l
  | VBuffer b => index_from 0 (bytes_of b)
  | VStr s => index_from 0 (map (fun c => VStr (String c "")) (list_ascii_of_string s))
  | _ => []
  end.

(** ** Strings *)

Definition upper_ascii (c : ascii) : ascii :=
  let n := nat_of_ascii c in
  if ((97 <=? n) && (n <=? 122))%nat then ascii_of_nat (n - 32) else c.

Fixpoint toUpperCase (s : string) : string :=
  match s with
  | EmptyString => EmptyString
  | String c s' => String (upper_ascii c) (toUpperCase s')
  end.

Fixpoint join (sep : string) (l : list string) : string :=
  match l with
  | [] => ""
  | [x] => x
  | x :: l' => x ++ sep ++ join sep l'
  end.

(** ToString, as template literals and [URLSearchParams] apply it. *)
Fixpoint to_string (v : value) : string :=
  match v with
  | VUndefined => "undefined"
  | VNull => "null"
  | VBool true => "true"
  | VBool false => "false"
  | VNum n => dec_of_Z n
  | VStr s => s
  | VBuffer b => b
  | VArr l =>
      join "," (map (fun x => match x with
                              | VUndefined | VNull => ""
                              | _ => to_string x
                              end) l)
  | VObj _ => "[object Object]"
  end.

(** ** The platform: transport responses, errors, URLs *)

(** [res.body] and what reading it yields: a stream that delivers all its
    bytes, or some bytes and then a failure of the connection; or no stream
    at all, [res.body] being [null] in the response to a HEAD request and
    in a response with status 204 or 205. *)
Inductive body_source : Type :=
| BodyComplete (bytes : string)
| BodyAborted (partial : string) (reason : string)
| BodyNull.

Record Response : Type := {
  status : Z;
  statusText : string;
  res_headers : list (string * string);
  res_body : body_source
}.

(** [Response.ok] of the Fetch standard: the status is in 200..299. *)
Definition ok (res : Response) : bool :=
  (200 <=? status res) && (status res <=? 299).

(** [responseForCallback]; [lr_body] is [None] until [.body] is assigned. *)
Record LegacyResponse : Type := {
  statusCode : Z;
  headers : obj;
  lr_body : option value
}.

Inductive js_error : Type :=
| JsError (message : string)
| JsTypeError (message : string)
| StatusError (message : string) (code : Z) (response : Response)
    (error : value) (options : obj)
| LegacyStatusError (message : string) (response : LegacyResponse)
| TransportFailure (reason : string).

Inductive completion (A : Type) : Type :=
| Normal (a : A)
| Throw (e : js_error).
Arguments Normal {A} a.
Arguments Throw {A} e.

Definition bind {A B} (c : completion A) (k : A -> completion B) : completion B :=
  match c with
  | Normal a => k a
  | Throw e => Throw e
  end.

Notation "x <- c ;; k" := (bind c (fun x => k))
  (at level 100, c at next level, right associativity).

(** A parsed URL: everything up to the path, the query, the fragment, and
    the list behind [searchParams]. *)
Record URL : Type := {
  url_prefix : string;
  url_query : option string;
  url_fragment : option string;
  url_params : list (string * string)
}.

Class Platform : Type := {
  JSON_stringify : value -> string;
  JSON_parse : string -> option value;
  base64 : string -> string;
  (** [new URL(s)]; [None] when the constructor throws. *)
  URL_parse : string -> option URL;
  (** the application/x-www-form-urlencoded parser *)
  urlencoded_parse : string -> list (string * string)
}.

(** *** application/x-www-form-urlencoded serialisation *)

Definition hex_digit (n : nat) : ascii :=
  if (n <? 10)%nat then ascii_of_nat (48 + n) else ascii_of_nat (55 + n).

Definition urlencoded_keep (n : nat) : bool :=
  ((48 <=? n) && (n <=? 57) || (65 <=? n) && (n <=? 90) || (97 <=? n) && (n <=? 122)
   || (n =? 42) || (n =? 45) || (n =? 46) || (n =? 95))%nat.

Definition urlencode_byte (c : ascii) : string :=
  let n := nat_of_ascii c in
  if (n =? 32)%nat then "+"
  else if urlencoded_keep n then String c ""
  else String "%" (String (hex_digit (n / 16)) (String (hex_digit (n mod 16)) "")).

Fixpoint urlencode (s : string) : string :=
  match s with
  | EmptyString => ""
  | String c s' => urlencode_byte c ++ urlencode s'
  end.

Definition urlencoded_serialize (l : list (string * string)) : string :=
  join "&" (map (fun kv => urlencode kv.1 ++ "=" ++ urlencode kv.2) l).

(** [searchParams.append(k, v)]: the pair goes last and the query of the URL
    becomes the serialisation of the list. *)
Definition URL_append (k v : string) (u : URL) : URL :=
  let l := (url_params u ++ [(k, v)])%list in
  {| url_prefix := url_prefix u;
     url_query := Some (urlencoded_serialize l);
     url_fragment := url_fragment u;
     url_params := l |}.

(** [url.toString()] *)
Definition URL_href (u : URL) : string :=
  url_prefix u
  ++ match url_query u with Some q => "?" ++ q | None => "" end
  ++ match url_fragment u with Some f => "#" ++ f | None => "" end.

(** [new URLSearchParams(init)]: a record gives its entries, a sequence must
    hold pairs, anything else is converted to a string and parsed, without
    a leading question mark. *)
Definition pair_of (v : value) : completion (string * string) :=
  match v with
  | VArr [a; b] => Normal (to_string a, to_string b)
  | VStr (String a (String b EmptyString)) => Normal (String a "", String b "")
  | _ => Throw (JsTypeError "Each query pair must be an iterable [name, value] tuple")
  end.

Fixpoint pairs_of (l : list value) : completion (list (string * string)) :=
  match l with
  | [] => Normal []
  | v :: l' => p <- pair_of v ;; ps <- pairs_of l' ;; Normal (p :: ps)
  end.

Definition URLSearchParams_new `{Platform} (init : value)
  : completion (list (string * string)) :=
  match init with
  | VObj o => Normal (map (fun kv => (kv.1, to_string kv.2)) o)
  | VArr l => pairs_of l
  | VBuffer b => pairs_of (bytes_of b)
  | VStr (String "?" s) => Normal (urlencoded_parse s)
  | _ => Normal (urlencoded_parse (to_string init))
  end.

(** ** translateOptions *)

Record FetchOptions : Type := {
  fo_method : string;
  fo_headers : obj;
  (** the abort signal, with the delay of the timer that fires it *)
  fo_signal : option value;
  fo_body : option value
}.

(** [a || b] *)
Definition or_else (a b : value) : value := if truthy a then a else b.

Definition is_undefined (v : value) : bool :=
  match v with VUndefined => true | _ => false end.

Definition is_null (v : value) : bool :=
  match v with VNull => true | _ => false end.

Definition method_of (options : obj) : completion string :=
  match or_else (prop "method" options) (VStr "GET") with
  | VStr s => Normal (toUpperCase s)
  | _ => Throw (JsTypeError "toUpperCase is not a function")
  end.

Definition basic_auth `{Platform} (auth : value) : value :=
  let user := prop "user" (own_props auth) in
  let pass := prop "pass" (own_props auth) in
  VStr ("Basic " ++ base64 (to_string user ++ ":" ++ to_string pass)).

(** The three body branches; the result is the body and the headers. *)
Definition translate_body `{Platform} (options : obj) (hdrs : obj)
  : completion (option value * obj) :=
  if truthy (prop "json" options) && negb (is_undefined (prop "body" options)) then
    let h := set "Content-Type" (VStr "application/json") hdrs in
    Normal (Some (VStr (JSON_stringify (prop "body" options))),
            if truthy (prop "Accept" h) then h
            else set "Accept" (VStr "application/json") h)
  else if truthy (prop "form" options) then
    ps <- URLSearchParams_new (prop "form" options) ;;
    Normal (Some (VStr (urlencoded_serialize ps)),
            set "Content-Type" (VStr "application/x-www-form-urlencoded") hdrs)
  else if truthy (prop "body" options) then
    Normal (Some (prop "body" options), hdrs)
  else Normal (None, hdrs).

Definition append_all (entries : obj) (u : URL) : URL :=
  fold_left (fun u kv => URL_append kv.1 (to_string kv.2) u) entries u.

(** The entries of [options.qs], as [append] receives them. *)
Definition qs_entries (options : obj) : list (string * string) :=
  map (fun kv => (kv.1, to_string kv.2)) (own_props (prop "qs" options)).

Definition translate_qs `{Platform} (options : obj) (url : value) : completion value :=
  if truthy (prop "qs" options) then
    match URL_parse (to_string url) with
    | None => Throw (JsTypeError "Invalid URL")
    | Some urlObj =>
        Normal (VStr (URL_href (append_all (own_props (prop "qs" options)) urlObj)))
    end
  else Normal url.

(** [{ ...(options.headers || {}) }] *)
Definition copy_headers (options : obj) : obj :=
  spread1 (own_props (or_else (prop "headers" options) (VObj []))).

Definition translate_auth `{Platform} (options : obj) (hdrs : obj) : obj :=
  if truthy (prop "auth" options)
  then set "Authorization" (basic_auth (prop "auth" options)) hdrs
  else hdrs.

(** [options.url || options.uri] *)
Definition url_of (options : obj) : value :=
  or_else (prop "url" options) (prop "uri" options).

Definition translateOptions `{Platform} (options : obj)
  : completion (value * FetchOptions) :=
  method <- method_of options ;;
  let hdrs := copy_headers options in
  let signal :=
    if truthy (prop "timeout" options) then Some (prop "timeout" options) else None in
  let url := url_of options in
  if negb (truthy url) then Throw (JsError "URL is required.") else
  let hdrs := translate_auth options hdrs in
  bh <- translate_body options hdrs ;;
  url <- translate_qs options url ;;
  Normal (url, {| fo_method := method; fo_headers := bh.2;
                  fo_signal := signal; fo_body := bh.1 |}).

(** ** consumeBody *)

Definition read_body (res : Response) : completion string :=
  match res_body res with
  | BodyComplete b => Normal b
  | BodyAborted _ reason => Throw (TransportFailure reason)
  | BodyNull => Normal ""
  end.

Definition consumeBody `{Platform} (res : Response) (options : obj)
  : completion value :=
  if is_null (prop "encoding" options) then
    arrayBuffer <- read_body res ;; Normal (VBuffer arrayBuffer)
  else if truthy (prop "json" options) then
    text <- read_body res ;;
    match JSON_parse text with
    | Some v => Normal v
    | None => Normal (VStr text)
    end
  else
    text <- read_body res ;; Normal (VStr text).

(** ** The transport *)

(** How the promise returned by [fetch] settles. *)
Inductive transport_result : Type :=
| Fulfilled (res : Response)
| Rejected (e : js_error).

Definition transport := value -> FetchOptions -> transport_result.

(** ** The callback path of [mainRequest] *)

(** When the callback runs: before [mainRequest] returns, or later. *)
Inductive timing : Type := Synchronous | Asynchronous.

(** One invocation [callback(error, response, body)]; a [null] error or
    response is [None]. *)
Record callback_call : Type := {
  cb_when : timing;
  cb_error : option js_error;
  cb_response : option LegacyResponse;
  cb_body : value
}.

(** [Object.fromEntries(res.headers.entries())] *)
Definition fromEntries (l : list (string * string)) : obj :=
  assign [] (map (fun kv => (kv.1, VStr kv.2)) l).

Definition callback_path `{Platform} (fetch : transport) (finalOptions : obj)
  : callback_call :=
  match translateOptions finalOptions with
  | Throw err => (* catch (err) { callback(err, null, null) } *)
      {| cb_when := Synchronous; cb_error := Some err;
         cb_response := None; cb_body := VNull |}
  | Normal (url, fetchOptions) =>
      match fetch url fetchOptions with
      | Rejected err => (* .catch: responseForCallback is still undefined *)
          {| cb_when := Asynchronous; cb_error := Some err;
             cb_response := None; cb_body := VNull |}
      | Fulfilled res =>
          let responseForCallback :=
            {| statusCode := status res;
               headers := fromEntries (res_headers res);
               lr_body := None |} in
          match consumeBody res finalOptions with
          | Throw err =>
              {| cb_when := Asynchronous; cb_error := Some err;
                 cb_response := Some responseForCallback; cb_body := VNull |}
          | Normal body =>
              let responseForCallback :=
                {| statusCode := status res;
                   headers := fromEntries (res_headers res);
                   lr_body := Some body |} in
              if statusCode responseForCallback >=? 400 then
                let err := LegacyStatusError
                             ("HTTP Error " ++ dec_of_Z (statusCode responseForCallback))
                             responseForCallback in
                {| cb_when := Asynchronous; cb_error := Some err;
                   cb_response := Some responseForCallback; cb_body := body |}
              else
                {| cb_when := Asynchronous; cb_error := None;
                   cb_response := Some responseForCallback; cb_body := body |}
          end
      end
  end.

(** ** class DropinRequest: a stream and a thenable *)

Inductive settlement : Type :=
| WithBody (body : value)
| WithResponse (res : Response).

Inductive promise_state : Type :=
| Pending
| Resolved (v : settlement)
| RejectedWith (e : js_error).

(** A promise settles once; later calls of its resolver or rejector do
    nothing. *)
Definition promiseResolver (v : settlement) (p : promise_state) : promise_state :=
  match p with Pending => Resolved v | _ => p end.

Definition promiseRejector (e : js_error) (p : promise_state) : promise_state :=
  match p with Pending => RejectedWith e | _ => p end.

Inductive event : Type :=
| EvResponse (res : Response)
| EvError (e : js_error).

(** Where the request is: [_init] not yet run, the transport call in
    flight (with what it will produce), or finished. *)
Inductive phase : Type :=
| Created
| InFlight (outcome : transport_result)
| Finished.

Record DropinRequest : Type := {
  _options : obj;
  _isPiped : bool;
  _promise : promise_state;
  (** events emitted so far, oldest first *)
  emitted : list event;
  (** bytes written into the stream itself *)
  written : string;
  (** destinations attached by [pipe] *)
  destinations : list nat;
  dr_phase : phase
}.

(** [new DropinRequest(options)]; [_init] is left to the next tick. *)
Definition new_DropinRequest (options : obj) : DropinRequest :=
  {| _options := options; _isPiped := false; _promise := Pending;
     emitted := []; written := ""; destinations := []; dr_phase := Created |}.

Definition pipe (destination : nat) (this : DropinRequest) : DropinRequest :=
  {| _options := _options this; _isPiped := true; _promise := _promise this;
     emitted := emitted this; written := written this;
     destinations := (destinations this ++ [destination])%list;
     dr_phase := dr_phase this |}.

(** The failure handler: reject the promise and emit ['error']. *)
Definition fail (err : js_error) (evs : list event) (this : DropinRequest)
  : DropinRequest :=
  {| _options := _options this; _isPiped := _isPiped this;
     _promise := promiseRejector err (_promise this);
     emitted := (emitted this ++ evs ++ [EvError err])%list;
     written := written this; destinations := destinations this;
     dr_phase := Finished |}.

Definition succeed (v : settlement) (evs : list event) (out : string)
  (this : DropinRequest) : DropinRequest :=
  {| _options := _options this; _isPiped := _isPiped this;
     _promise := promiseResolver v (_promise this);
     emitted := (emitted this ++ evs)%list;
     written := written this ++ out; destinations := destinations this;
     dr_phase := Finished |}.

(** The bytes a body delivers to a reader of its stream. *)
Definition body_bytes (b : body_source) : string :=
  match b with
  | BodyComplete bytes => bytes
  | BodyAborted partial _ => partial
  | BodyNull => ""
  end.

(** What [Readable.fromWeb] throws when its argument is not a stream. *)
Definition fromWeb_null_error : js_error :=
  JsTypeError "The stream argument must be an instance of ReadableStream. Received null".

(** [Readable.fromWeb(res.body)]: the bytes the new stream will deliver. *)
Definition Readable_fromWeb (b : body_source) : completion string :=
  match b with
  | BodyNull => Throw fromWeb_null_error
  | _ => Normal (body_bytes b)
  end.

(** The synchronous part of [_init]: translate the options and dispatch. *)
Definition _init `{Platform} (fetch : transport) (this : DropinRequest)
  : DropinRequest :=
  match dr_phase this with
  | Created =>
      match translateOptions (_options this) with
      | Throw err => fail err [] this
      | Normal (url, fetchOptions) =>
          {| _options := _options this; _isPiped := _isPiped this;
             _promise := _promise this; emitted := emitted this;
             written := written this; destinations := destinations this;
             dr_phase := InFlight (fetch url fetchOptions) |}
      end
  | _ => this
  end.

(** The handlers chained on the promise of [fetch]. *)
Definition on_settled `{Platform} (this : DropinRequest) : DropinRequest :=
  match dr_phase this with
  | InFlight (Rejected err) => fail err [] this
  | InFlight (Fulfilled res) =>
      if negb (ok res) then
        match consumeBody res (_options this) with
        | Normal body =>
            let err := StatusError
                         ("HTTP Error: " ++ dec_of_Z (status res) ++ " " ++ statusText res)
                         (status res) res body (_options this) in
            fail err [EvResponse res] this
        | Throw err => fail err [EvResponse res] this
        end
      else if _isPiped this then
        match Readable_fromWeb (res_body res) with
        | Normal bytes => succeed (WithResponse res) [EvResponse res] bytes this
        | Throw err => fail err [EvResponse res] this
        end
      else
        match consumeBody res (_options this) with
        | Normal body => succeed (WithBody body) [EvResponse res] "" this
        | Throw err => fail err [EvResponse res] this
        end
  | _ => this
  end.

Definition nonempty {A} (l : list A) : bool :=
  match l with [] => false | _ => true end.

(** What happens to a request object, in time order. *)
Inductive action : Type :=
| Pipe (destination : nat)
| NextTick
| TransportSettles.

Definition step `{Platform} (fetch : transport) (this : DropinRequest) (a : action)
  : DropinRequest :=
  match a with
  | Pipe d => pipe d this
  | NextTick => _init fetch this
  | TransportSettles => on_settled this
  end.

Definition run `{Platform} (fetch : transport) (this : DropinRequest)
  (trace : list action) : DropinRequest :=
  fold_left (step fetch) trace this.

(** ** createRequestInstance *)

(** An argument of a call: a value or a function. *)
Inductive arg : Type :=
| Val (v : value)
| Fun (f : nat).

(** What a call of the entry point gives back. *)
Inductive call_result : Type :=
| ReturnsUndefined (callback : nat) (call : callback_call)
| ReturnsRequest (request : DropinRequest).

(** The instance is the closure over [defaultOptions]. *)
Record instance : Type := { defaultOptions : obj }.

(** The first lines of [mainRequest] and of every verb method. *)
Definition opts_of (uri options : arg) : obj :=
  let opts :=
    match uri with
    | Val v =>
        if is_object v then spread1 (own_props v)
        else match v with VStr s => set "url" (VStr s) [] | _ => [] end
    | Fun _ => []
    end in
  match options with
  | Val v => if is_object v then spread2 opts (own_props v) else opts
  | Fun _ => opts
  end.

Definition callback_of (options callback : arg) : arg :=
  match options with
  | Fun f => Fun f
  | Val _ => callback
  end.

Definition mainRequest `{Platform} (fetch : transport) (self : instance)
  (uri options callback : arg) : completion call_result :=
  let opts := opts_of uri options in
  let callback := callback_of options callback in
  let finalOptions := spread2 (defaultOptions self) opts in
  match callback with
  | Fun f => Normal (ReturnsUndefined f (callback_path fetch finalOptions))
  | Val _ => Normal (ReturnsRequest (new_DropinRequest finalOptions))
  end.

Definition methods : list string :=
  ["get"; "post"; "put"; "delete"; "patch"; "head"; "options"].

(** [mainRequest[method]] *)
Definition verb `{Platform} (fetch : transport) (self : instance) (method : string)
  (uri options callback : arg) : completion call_result :=
  let opts := opts_of uri options in
  let callback := callback_of options callback in
  let opts := set "method" (VStr (toUpperCase method)) opts in
  mainRequest fetch self (Val (VObj opts)) callback (Val VUndefined).

(** [JSON.parse(JSON.stringify(v))], by its effect on values: [None] where
    [JSON.stringify] gives [undefined].  Properties holding [undefined] are
    dropped, array holes become [null], and a Buffer becomes the plain
    object of its [toJSON]. *)
Fixpoint json_clone (v : value) : option value :=
  match v with
  | VUndefined => None
  | VNull => Some VNull
  | VBool b => Some (VBool b)
  | VNum n => Some (VNum n)
  | VStr s => Some (VStr s)
  | VBuffer b => Some (VObj [("type", VStr "Buffer"); ("data", VArr (bytes_of b))])
  | VArr l => Some (VArr (map (fun x => default VNull (json_clone x)) l))
  | VObj o =>
      Some (VObj (omap (fun kv => match json_clone kv.2 with
                                  | Some v' => Some (kv.1, v')
                                  | None => None
                                  end) o))
  end.

Definition json_clone_obj (o : obj) : obj :=
  match json_clone (VObj o) with
  | Some (VObj o') => o'
  | _ => []
  end.

(** [v.k]: reading a property of [undefined] or [null] throws. *)
Definition member (k : string) (v : value) : completion value :=
  match v with
  | VUndefined | VNull =>
      Throw (JsTypeError "Cannot read properties of undefined")
  | _ => Normal (prop k (own_props v))
  end.

(** [mainRequest.defaults] *)
Definition defaults (self : instance) (newDefaults : value) : completion instance :=
  let currentDefaults := json_clone_obj (defaultOptions self) in
  let mergedDefaults := spread2 currentDefaults (own_props newDefaults) in
  if truthy (prop "headers" currentDefaults) then
    newHeaders <- member "headers" newDefaults ;;
    if truthy newHeaders then
      Normal {| defaultOptions :=
                  set "headers"
                    (VObj (spread2 (own_props (prop "headers" currentDefaults))
                                   (own_props newHeaders)))
                    mergedDefaults |}
    else Normal {| defaultOptions := mergedDefaults |}
  else Normal {| defaultOptions := mergedDefaults |}.

(** [module.exports = createRequestInstance()] *)
Definition request : instance := {| defaultOptions := [] |}.

(** The merge of two partial option records in the words of the
    specification: the later record wins key by key, except that two
    header maps are merged key-wise. *)
Definition merge_spec (x y : obj) : obj :=
  let m := spread2 x y in
  match get "headers" x, get "headers" y with
  | Some (VObj hx), Some (VObj hy) => set "headers" (VObj (spread2 hx hy)) m
  | _, _ => m
  end.

(** Values that a JSON round trip gives back unchanged. *)
Fixpoint json_plain (v : value) : bool :=
  match v with
  | VUndefined | VBuffer _ => false
  | VNull | VBool _ | VNum _ | VStr _ => true
  | VArr l => forallb json_plain l
  | VObj o => forallb (fun kv => json_plain kv.2) o
  end.

(** No key occurs twice. *)
Fixpoint unique_keys (o : obj) : bool :=
  match o with
  | [] => true
  | (k, _) :: o' => negb (existsb (fun kv => String.eqb k kv.1) o') && unique_keys o'
  end.

(** The [headers] property is absent or a mapping. *)
Definition headers_mapping (o : obj) : bool :=
  match get "headers" o with
  | None | Some (VObj _) => true
  | Some _ => false
  end.

(** ** The cookie-jar revision of the module

    The later revision threads a cookie jar through the same functions.
    [translateOptions] becomes an [async] function, so whatever it throws
    reaches its caller as a rejection, after the caller has returned.  The
    jar is an object of the tough-cookie library: here a state of type
    [Jar] with its two operations. *)
Module JarRevision.

Class CookieJar (Jar : Type) : Type := {
  getCookieString : Jar -> value -> completion string;
  setCookie : Jar -> string -> value -> completion Jar
}.

Section WithJar.
Context `{Platform} {Jar : Type} `{CookieJar Jar}.

Definition translate_cookie (jar : option Jar) (url : value) (hdrs : obj)
  : completion obj :=
  match jar with
  | Some j =>
      cookieString <- getCookieString j url ;;
      if negb (String.eqb cookieString "")
      then Normal (set "Cookie" (VStr cookieString) hdrs)
      else Normal hdrs
  | None => Normal hdrs
  end.

Definition translateOptions (options : obj) (jar : option Jar)
  : completion (value * FetchOptions) :=
  method <- method_of options ;;
  let hdrs := copy_headers options in
  let signal :=
    if truthy (prop "timeout" options) then Some (prop "timeout" options) else None in
  let url := url_of options in
  if negb (truthy url) then Throw (JsError "URL is required.") else
  hdrs <- translate_cookie jar url hdrs ;;
  let hdrs := translate_auth options hdrs in
  bh <- translate_body options hdrs ;;
  url <- translate_qs options url ;;
  Normal (url, {| fo_method := method; fo_headers := bh.2;
                  fo_signal := signal; fo_body := bh.1 |}).

(** [res.headers.get(name)]: the values of the header joined by a comma,
    [None] for [null].  Header names are lower-case, as [entries()]
    yields them. *)
Definition headers_get (name : string) (res : Response) : option string :=
  match filter (fun kv => String.eqb kv.1 name = true) (res_headers res) with
  | [] => None
  | l => Some (join ", " (map snd l))
  end.

(** The jar is updated from the set-cookie header of the response. *)
Definition update_jar (jar : option Jar) (res : Response) (url : value)
  : completion (option Jar) :=
  match jar with
  | Some j =>
      match headers_get "set-cookie" res with
      | Some setCookieHeader =>
          if negb (String.eqb setCookieHeader "")
          then j' <- setCookie j setCookieHeader url ;; Normal (Some j')
          else Normal jar
      | None => Normal jar
      end
  | None => Normal None
  end.

(** The body of the [async] function run in callback mode, with the jar
    as it is afterwards. *)
Definition callback_path (fetch : transport) (finalOptions : obj)
  (activeJar : option Jar) : callback_call * option Jar :=
  let caught err responseForCallback jar :=
    ({| cb_when := Asynchronous; cb_error := Some err;
        cb_response := responseForCallback; cb_body := VNull |}, jar) in
  match translateOptions finalOptions activeJar with
  | Throw err => caught err None activeJar
  | Normal (url, fetchOptions) =>
      match fetch url fetchOptions with
      | Rejected err => caught err None activeJar
      | Fulfilled res =>
          match update_jar activeJar res url with
          | Throw err => caught err None activeJar
          | Normal jar =>
              let responseForCallback :=
                {| statusCode := status res;
                   headers := fromEntries (res_headers res);
                   lr_body := None |} in
              match consumeBody res finalOptions with
              | Throw err => caught err (Some responseForCallback) jar
              | Normal body =>
                  let responseForCallback :=
                    {| statusCode := status res;
                       headers := fromEntries (res_headers res);
                       lr_body := Some body |} in
                  if negb (ok res) then
                    let err := LegacyStatusError
                                 ("HTTP Error " ++ dec_of_Z (statusCode responseForCallback))
                                 responseForCallback in
                    ({| cb_when := Asynchronous; cb_error := Some err;
                        cb_response := Some responseForCallback;
                        cb_body := body |}, jar)
                  else
                    ({| cb_when := Asynchronous; cb_error := None;
                        cb_response := Some responseForCallback;
                        cb_body := body |}, jar)
              end
          end
      end
  end.

(** [_init]: the part up to the transport call ... *)
Definition _init (fetch : transport) (jar : option Jar) (this : DropinRequest)
  : DropinRequest * option value :=
  match dr_phase this with
  | Created =>
      match translateOptions (_options this) jar with
      | Throw err => (fail err [] this, None)
      | Normal (url, fetchOptions) =>
          ({| _options := _options this; _isPiped := _isPiped this;
              _promise := _promise this; emitted := emitted this;
              written := written this; destinations := destinations this;
              dr_phase := InFlight (fetch url fetchOptions) |}, Some url)
      end
  | _ => (this, None)
  end.

(** ... and the part after it. *)
Definition on_settled (jar : option Jar) (url : value) (this : DropinRequest)
  : DropinRequest * option Jar :=
  match dr_phase this with
  | InFlight (Rejected err) => (fail err [] this, jar)
  | InFlight (Fulfilled res) =>
      match update_jar jar res url with
      | Throw err => (fail err [] this, jar)
      | Normal jar =>
          if negb (ok res) then
            match consumeBody res (_options this) with
            | Normal body =>
                let err := StatusError
                             ("HTTP Error: " ++ dec_of_Z (status res) ++ " " ++ statusText res)
                             (status res) res body (_options this) in
                (fail err [EvResponse res] this, jar)
            | Throw err => (fail err [EvResponse res] this, jar)
            end
          else if _isPiped this then
            match Readable_fromWeb (res_body res) with
            | Normal bytes =>
                (succeed (WithResponse res) [EvResponse res] bytes this, jar)
            | Throw err => (fail err [EvResponse res] this, jar)
            end
          else
            match consumeBody res (_options this) with
            | Normal body => (succeed (WithBody body) [EvResponse res] "" this, jar)
            | Throw err => (fail err [EvResponse res] this, jar)
            end
      end
  | _ => (this, jar)
  end.
End WithJar.

End JarRevision.

(** ** A reference platform

    An executable instance of [Platform], on which the functions above can
    be run: base64, a JSON writer and reader for texts without white space
    and escapes, and a URL parser that splits an absolute URL at its query
    and fragment. *)
Module Reference.

Definition dquote : ascii := ascii_of_nat 34.

Definition b64_char (n : nat) : ascii :=
  if (n <? 26)%nat then ascii_of_nat (65 + n)
  else if (n <? 52)%nat then ascii_of_nat (71 + n)
  else if (n <? 62)%nat then ascii_of_nat (n - 4)
  else if (n =? 62)%nat then "+"%char else "/"%char.

Fixpoint b64 (l : list nat) : string :=
  match l with
  | [] => ""
  | [a] =>
      String (b64_char (a / 4)) (String (b64_char (a mod 4 * 16)) "==")
  | [a; b] =>
      String (b64_char (a / 4))
        (String (b64_char (a mod 4 * 16 + b / 16))
           (String (b64_char (b mod 16 * 4)) "="))
  | a :: b :: c :: r =>
      String (b64_char (a / 4))
        (String (b64_char (a mod 4 * 16 + b / 16))
           (String (b64_char (b mod 16 * 4 + c / 64))
              (String (b64_char (c mod 64)) (b64 r))))
  end%nat.

Definition encode64 (s : string) : string :=
  b64 (map nat_of_ascii (list_ascii_of_string s)).

Definition quoted (s : string) : string :=
  String dquote (s ++ String dquote "").

Fixpoint stringify (v : value) : string :=
  match v with
  | VUndefined | VNull => "null"
  | VBool true => "true"
  | VBool false => "false"
  | VNum n => dec_of_Z n
  | VStr s => quoted s
  | VBuffer b => "{" ++ quoted "type" ++ ":" ++ quoted "Buffer" ++ ","
                 ++ quoted "data" ++ ":[" ++ join "," (map to_string (bytes_of b)) ++ "]}"
  | VArr l => "[" ++ join "," (map stringify l) ++ "]"
  | VObj o =>
      "{" ++ join "," (omap (fun kv => if is_undefined kv.2 then None
                                       else Some (quoted kv.1 ++ ":" ++ stringify kv.2))
                             o) ++ "}"
  end.

Definition is_digit (c : ascii) : bool :=
  let n := nat_of_ascii c in ((48 <=? n) && (n <=? 57))%nat.

Fixpoint span (p : ascii -> bool) (s : list ascii) : list ascii * list ascii :=
  match s with
  | c :: r => if p c then let '(a, b) := span p r in (c :: a, b) else ([], s)
  | [] => ([], [])
  end.

Definition digits_value (ds : list ascii) : Z :=
  fold_left (fun acc c => 10 * acc + Z.of_nat (nat_of_ascii c - 48)) ds 0.

Definition read_string (s : list ascii) : option (string * list ascii) :=
  match span (fun c => negb (Ascii.eqb c dquote)) s with
  | (str, _ :: r) => Some (string_of_list_ascii str, r)
  | _ => None
  end.

Definition read_number (s : list ascii) : option (value * list ascii) :=
  match span is_digit s with
  | ([], _) => None
  | (ds, r) => Some (VNum (digits_value ds), r)
  end.

Fixpoint read_value (fuel : nat) (s : list ascii) : option (value * list ascii) :=
  match fuel with
  | O => None
  | S n =>
      let fix read_items (k : nat) (s : list ascii) : option (list value * list ascii) :=
        match k with
        | O => None
        | S k' =>
            match read_value n s with
            | Some (v, ","%char :: r) =>
                match read_items k' r with
                | Some (vs, r') => Some (v :: vs, r')
                | None => None
                end
            | Some (v, "]"%char :: r) => Some ([v], r)
            | _ => None
            end
        end in
      let fix read_members (k : nat) (s : list ascii) : option (obj * list ascii) :=
        match k with
        | O => None
        | S k' =>
            match s with
            | q :: s' =>
                if Ascii.eqb q dquote then
                  match read_string s' with
                  | Some (key, ":"%char :: r) =>
                      match read_value n r with
                      | Some (v, ","%char :: r') =>
                          match read_members k' r' with
                          | Some (ms, r'') => Some ((key, v) :: ms, r'')
                          | None => None
                          end
                      | Some (v, "}"%char :: r') => Some ([(key, v)], r')
                      | _ => None
                      end
                  | _ => None
                  end
                else None
            | [] => None
            end
        end in
      match s with
      | "n"%char :: "u"%char :: "l"%char :: "l"%char :: r => Some (VNull, r)
      | "t"%char :: "r"%char :: "u"%char :: "e"%char :: r => Some (VBool true, r)
      | "f"%char :: "a"%char :: "l"%char :: "s"%char :: "e"%char :: r =>
          Some (VBool false, r)
      | "["%char :: "]"%char :: r => Some (VArr [], r)
      | "["%char :: r =>
          match read_items (length r) r with
          | Some (vs, r') => Some (VArr vs, r')
          | None => None
          end
      | "{"%char :: "}"%char :: r => Some (VObj [], r)
      | "{"%char :: r =>
          match read_members (length r) r with
          | Some (ms, r') => Some (VObj (assign [] ms), r')
          | None => None
          end
      | "-"%char :: r =>
          match read_number r with
          | Some (VNum z, r') => Some (VNum (- z), r')
          | _ => None
          end
      | c :: r =>
          if Ascii.eqb c dquote then
            match read_string r with
            | Some (str, r') => Some (VStr str, r')
            | None => None
            end
          else read_number s
      | [] => None
      end
  end.

Definition parse (text : string) : option value :=
  match read_value (S (String.length text)) (list_ascii_of_string text) with
  | Some (v, []) => Some v
  | _ => None
  end.

(** Split at the first occurrence of a character. *)
Fixpoint split_at (c : ascii) (s : string) : string * option string :=
  match s with
  | EmptyString => ("", None)
  | String d s' =>
      if Ascii.eqb c d then ("", Some s')
      else let '(a, b) := split_at c s' in (String d a, b)
  end.

Fixpoint split_all (fuel : nat) (c : ascii) (s : string) : list string :=
  match fuel with
  | O => [s]
  | S n =>
      match split_at c s with
      | (a, Some b) => a :: split_all n c b
      | (a, None) => [a]
      end
  end.

Definition unhex (c : ascii) : option nat :=
  let n := nat_of_ascii c in
  if ((48 <=? n) && (n <=? 57))%nat then Some (n - 48)%nat
  else if ((65 <=? n) && (n <=? 70))%nat then Some (n - 55)%nat
  else if ((97 <=? n) && (n <=? 102))%nat then Some (n - 87)%nat
  else None.

Fixpoint urldecode (s : string) : string :=
  match s with
  | EmptyString => ""
  | String c s' =>
      if Ascii.eqb c "+" then String " " (urldecode s')
      else
        match c, s' with
        | "%"%char, String h (String l r) =>
            match unhex h, unhex l with
            | Some a, Some b => String (ascii_of_nat (16 * a + b)) (urldecode r)
            | _, _ => String c (urldecode s')
            end
        | _, _ => String c (urldecode s')
        end
  end.

Definition parse_urlencoded (s : string) : list (string * string) :=
  omap (fun piece =>
          if String.eqb piece "" then None
          else let '(k, v) := split_at "=" piece in
               Some (urldecode k, urldecode (default "" v)))
       (split_all (String.length s) "&" s).

Fixpoint has_scheme (s : string) : bool :=
  match s with
  | String ":" (String "/" (String "/" _)) => true
  | String _ s' => has_scheme s'
  | EmptyString => false
  end.

Definition parse_URL (s : string) : option URL :=
  if has_scheme s then
    let '(rest, fragment) := split_at "#" s in
    let '(prefix, query) := split_at "?" rest in
    Some {| url_prefix := prefix; url_query := query; url_fragment := fragment;
            url_params := parse_urlencoded (default "" query) |}
  else None.

#[export] Instance platform : Platform := {|
  JSON_stringify := stringify;
  JSON_parse := parse;
  base64 := encode64;
  URL_parse := parse_URL;
  urlencoded_parse := parse_urlencoded
|}.

(** A jar that holds one cookie string for every URL. *)
#[export] Instance jar : JarRevision.CookieJar string := {|
  JarRevision.getCookieString := fun j _ => Normal j;
  JarRevision.setCookie := fun j c _ => Normal (if String.eqb j "" then c else j ++ "; " ++ c)
|}.

End Reference.


(** ** Objects with identity

    To speak of mutation, the same code over a store: an object is a
    location, a property may hold a reference, spread allocates, and an
    assignment to a property updates the object at its location.  The
    strings that the platform computes from objects are computed from a
    snapshot of the store. *)
Module Heap.

Abbreviation loc := nat.

Inductive hval : Type :=
| HUndefined
| HNull
| HBool (b : bool)
| HNum (n : Z)
| HStr (s : string)
| HRef (l : loc).

Abbreviation hobj := (list (string * hval)).

Abbreviation heap := (gmap loc hobj).

Definition htruthy (v : hval) : bool :=
  match v with
  | HUndefined | HNull => false
  | HBool b => b
  | HNum n => negb (n =? 0)
  | HStr s => negb (String.eqb s "")
  | HRef _ => true
  end.

Definition hprop (k : string) (o : hobj) : hval := default HUndefined (get k o).

(** The value a store holds at [v], followed to depth [n]. *)
Fixpoint reify (n : nat) (h : heap) (v : hval) {struct n} : value :=
  match v with
  | HUndefined => VUndefined
  | HNull => VNull
  | HBool b => VBool b
  | HNum z => VNum z
  | HStr s => VStr s
  | HRef l =>
      match n with
      | O => VUndefined
      | S n' =>
          match h !! l with
          | Some o => VObj (map (fun kv => (kv.1, reify n' h kv.2)) o)
          | None => VUndefined
          end
      end
  end.

(** State passing over the store. *)
Definition M (A : Type) : Type := heap -> A * heap.

Definition ret {A} (a : A) : M A := fun h => (a, h).

Definition mbind {A B} (m : M A) (k : A -> M B) : M B :=
  fun h => let '(a, h') := m h in k a h'.

Notation "x <~ c ;; k" := (mbind c (fun x => k))
  (at level 100, c at next level, right associativity).
Notation "c ;;; k" := (mbind c (fun _ => k))
  (at level 100, right associativity).

(** A new object, at a location the store does not use. *)
Definition alloc (o : hobj) : M loc :=
  fun h => let l := fresh (dom h) in (l, <[l := o]> h).

Definition read (l : loc) : M hobj :=
  fun h => (default [] (h !! l), h).

(** [l[k] = v] *)
Definition write (l : loc) (k : string) (v : hval) : M unit :=
  fun h => (tt, alter (set k v) l h).

Definition snapshot (v : hval) : M value :=
  fun h => (reify (S (size h)) h v, h).

Definition hown_props (v : hval) : M hobj :=
  match v with
  | HRef l => read l
  | HStr s =>
      ret (index_from 0 (map (fun c => HStr (String c "")) (list_ascii_of_string s)))
  | _ => ret []
  end.

Section Code.
Context `{Platform}.

Definition translate_body (options : hobj) (fetchOptions headers : loc)
  : M (completion unit) :=
  if htruthy (hprop "json" options)
     && negb (match hprop "body" options with HUndefined => true | _ => false end)
  then
    body <~ snapshot (hprop "body" options) ;;
    write fetchOptions "body" (HStr (JSON_stringify body)) ;;;
    write headers "Content-Type" (HStr "application/json") ;;;
    hs <~ read headers ;;
    if htruthy (hprop "Accept" hs) then ret (Normal tt)
    else write headers "Accept" (HStr "application/json") ;;; ret (Normal tt)
  else if htruthy (hprop "form" options) then
    form <~ snapshot (hprop "form" options) ;;
    match URLSearchParams_new form with
    | Throw e => ret (Throw e)
    | Normal ps =>
        write fetchOptions "body" (HStr (urlencoded_serialize ps)) ;;;
        write headers "Content-Type" (HStr "application/x-www-form-urlencoded") ;;;
        ret (Normal tt)
    end
  else if htruthy (hprop "body" options) then
    write fetchOptions "body" (hprop "body" options) ;;; ret (Normal tt)
  else ret (Normal tt).

(** [translateOptions], with the destructuring of its result by the
    caller: the URL and the location of the rest object. *)
Definition translateOptions (options : loc) : M (completion (hval * loc)) :=
  o <~ read options ;;
  opts <~ snapshot (HRef options) ;;
  match method_of (own_props opts) with
  | Throw e => ret (Throw e)
  | Normal method =>
      src <~ (if htruthy (hprop "headers" o) then ret (hprop "headers" o)
              else l <~ alloc [] ;; ret (HRef l)) ;;
      ps <~ hown_props src ;;
      headers <~ alloc (spread1 ps) ;;
      fetchOptions <~ alloc [("method", HStr method); ("headers", HRef headers)] ;;
      (if htruthy (hprop "timeout" o) then
         signal <~ alloc [("delay", hprop "timeout" o)] ;;
         write fetchOptions "signal" (HRef signal)
       else ret tt) ;;;
      let url := if htruthy (hprop "url" o) then hprop "url" o else hprop "uri" o in
      if negb (htruthy url) then ret (Throw (JsError "URL is required.")) else
      (if htruthy (hprop "auth" o) then
         write headers "Authorization"
           (HStr (to_string (basic_auth (prop "auth" (own_props opts)))))
       else ret tt) ;;;
      b <~ translate_body o fetchOptions headers ;;
      match b with
      | Throw e => ret (Throw e)
      | Normal _ =>
          u <~ snapshot url ;;
          match translate_qs (own_props opts) u with
          | Throw e => ret (Throw e)
          | Normal u' =>
              let url := if htruthy (hprop "qs" o) then HStr (to_string u') else url in
              fo <~ read fetchOptions ;;
              result <~ alloc (assign [("url", url)] fo) ;;
              r <~ read result ;;
              rest <~ alloc (filter (fun kv => kv.1 <> "url") r) ;;
              ret (Normal (url, rest))
          end
      end
  end.

Inductive harg : Type :=
| HVal (v : hval)
| HFun (f : nat).

(** What a call leaves behind: the request handed to the transport, the
    error given to the callback, or the new request object. *)
Inductive outcome : Type :=
| Dispatched (callback : nat) (url : hval) (fetchOptions : loc)
| CalledBack (callback : nat) (err : js_error)
| Returned (this : loc).

Definition opts_of (verb : bool) (uri options : harg) : M loc :=
  opts <~ alloc [] ;;
  opts <~ match uri with
          | HVal (HRef u) => o <~ read u ;; alloc (spread1 o)
          | HVal (HStr s) => write opts "url" (HStr s) ;;; ret opts
          | _ => if verb then alloc [] else ret opts
          end ;;
  match options with
  | HVal (HRef p) => a <~ read opts ;; b <~ read p ;; alloc (spread2 a b)
  | _ => ret opts
  end.

Definition callback_of (options callback : harg) : harg :=
  match options with
  | HFun f => HFun f
  | HVal _ => callback
  end.

(** [mainRequest], for the instance whose [defaultOptions] is the object
    at [defaultOptions]. *)
Definition mainRequest (defaultOptions : loc) (uri options callback : harg)
  : M outcome :=
  opts <~ opts_of false uri options ;;
  let callback := callback_of options callback in
  d <~ read defaultOptions ;;
  o <~ read opts ;;
  finalOptions <~ alloc (spread2 d o) ;;
  match callback with
  | HFun f =>
      r <~ translateOptions finalOptions ;;
      match r with
      | Throw err => ret (CalledBack f err)
      | Normal (url, fetchOptions) => ret (Dispatched f url fetchOptions)
      end
  | HVal _ =>
      this <~ alloc [("_options", HRef finalOptions); ("_isPiped", HBool false)] ;;
      ret (Returned this)
  end.

(** [mainRequest[method]] *)
Definition verb (defaultOptions : loc) (method : string)
  (uri options callback : harg) : M outcome :=
  opts <~ opts_of true uri options ;;
  let callback := callback_of options callback in
  write opts "method" (HStr (toUpperCase method)) ;;;
  mainRequest defaultOptions (HVal (HRef opts)) callback (HVal HUndefined).

(** [pipe] and the synchronous part of [_init], on the object at [this]. *)
Definition pipe (this : loc) : M unit := write this "_isPiped" (HBool true).

Definition _init (this : loc) : M (completion (hval * loc)) :=
  t <~ read this ;;
  match hprop "_options" t with
  | HRef options => translateOptions options
  | _ => ret (Throw (JsTypeError "Cannot read properties of undefined"))
  end.

(** The headers object that the transport receives. *)
Definition transport_headers (fetchOptions : loc) (h : heap) : option loc :=
  match h !! fetchOptions with
  | Some fo => match hprop "headers" fo with HRef l => Some l | _ => None end
  | None => None
  end.
End Code.

(** A computation keeps the store [h0]: started in a store that extends
    [h0], it ends in one that still does, with [Q] of its result. *)
Definition triple {A} (h0 : heap) (P : heap -> Prop) (m : M A)
  (Q : A -> heap -> Prop) : Prop :=
  forall h, h0 ⊆ h -> P h -> h0 ⊆ (m h).2 /\ Q (m h).1 (m h).2.

(** The request being built: its [headers] property refers to the new
    headers object, and both lie outside [h0]. *)
Definition building (h0 : heap) (fetchOptions headers : loc) (h : heap) : Prop :=
  h0 !! fetchOptions = None /\ h0 !! headers = None /\ fetchOptions <> headers
  /\ exists o, h !! fetchOptions = Some o /\ NoDup (keys o)
               /\ hprop "headers" o = HRef headers.

(** What the transport is given: a request object and a headers object
    that do not exist in [h0]. *)
Definition fresh_request (h0 : heap) (r : completion (hval * loc)) (h : heap) : Prop :=
  match r with
  | Normal (_, fetchOptions) =>
      h0 !! fetchOptions = None
      /\ exists hl, transport_headers fetchOptions h = Some hl /\ h0 !! hl = None
  | Throw _ => True
  end.

(** What a call leaves behind lies outside [h0]. *)
Definition fresh_outcome (h0 : heap) (r : outcome) (h : heap) : Prop :=
  match r with
  | Dispatched _ url fetchOptions => fresh_request h0 (Normal (url, fetchOptions)) h
  | CalledBack _ _ => True
  | Returned this => h0 !! this = None
  end.

End Heap.

(** ** Auxiliary notions for the statements *)

(** The merge that [defaults] makes of the current defaults and an object
    of new defaults. *)
Definition merge_defaults (currentDefaults newDefaults : obj) : obj :=
  let mergedDefaults := spread2 currentDefaults newDefaults in
  if truthy (prop "headers" currentDefaults) && truthy (prop "headers" newDefaults)
  then set "headers"
         (VObj (spread2 (own_props (prop "headers" currentDefaults))
                        (own_props (prop "headers" newDefaults))))
         mergedDefaults
  else mergedDefaults.

Definition plain_obj (o : obj) : Prop := json_plain (VObj o) = true.

(** ** Further notions for the statements *)

(** The options a call of the entry point works with. *)
Definition final_options (self : instance) (uri options : arg) : obj :=
  spread2 (defaultOptions self) (opts_of uri options).

(** The options a call of a verb method works with: its own merge, the
    method override, and the merge made again by the entry point. *)
Definition verb_options (self : instance) (method : string)
  (uri options callback : arg) : obj :=
  final_options self
    (Val (VObj (set "method" (VStr (toUpperCase method)) (opts_of uri options))))
    (callback_of options callback).

(** No lower-case ASCII letter. *)
Fixpoint no_lower (s : string) : bool :=
  match s with
  | EmptyString => true
  | String c s' =>
      negb ((97 <=? nat_of_ascii c) && (nat_of_ascii c <=? 122))%nat && no_lower s'
  end.

(** ** The class variant of the module

    The earlier revision of the module is a class whose instances hold
    their defaults; [_fetchWrapper] does the whole request.  Its body may
    be a [URLSearchParams] object, which is not a [value]. *)
Module ClassVariant.

Inductive class_body : Type :=
| Params (ps : list (string * string))
| Raw (v : value).

Abbreviation class_fetch := (list (string * class_body)).

Definition class_transport := value -> class_fetch -> transport_result.

(** What [_fetchWrapper] resolves with. *)
Record wrapper_result : Type := {
  wr_error : option js_error;
  wr_response : obj;
  wr_body : value
}.

(** How a call of [request] ends. *)
Inductive class_outcome : Type :=
| CallbackInvoked (f : nat) (error : option js_error) (response : option obj)
    (body : value)
| PromiseResolved (body : value)
| PromiseRejected (e : js_error).

Definition _normalizeOptions (options : value) : value :=
  match options with
  | VStr s => VObj [("url", VStr s)]
  | _ => options
  end.

Fixpoint has_char (c : ascii) (s : string) : bool :=
  match s with
  | EmptyString => false
  | String d s' => Ascii.eqb c d || has_char c s'
  end.

(** [url.includes('?')] *)
Definition includes_qmark (url : value) : completion bool :=
  match url with
  | VStr s => Normal (has_char "?" s)
  | VArr l =>
      Normal (existsb (fun v => match v with
                                | VStr s => String.eqb s "?"
                                | _ => false
                                end) l)
  | VBuffer b => Normal (has_char "?" b)
  | _ => Throw (JsTypeError "url.includes is not a function")
  end.

Section Wrapper.
Context `{Platform}.
(** [res.url] *)
Variable res_url : Response -> string.
Variable fetch : class_transport.

Definition wrapper_url (options : value) : completion value :=
  u <- member "url" options ;;
  url <- (if truthy u then Normal u else member "uri" options) ;;
  if negb (truthy url) then Throw (JsError "URL is required") else
  let qs := prop "qs" (own_props options) in
  if truthy qs && is_object qs then
    ps <- URLSearchParams_new qs ;;
    q <- includes_qmark url ;;
    Normal (VStr (to_string url ++ (if q then "&" else "?") ++ urlencoded_serialize ps))
  else Normal url.

Definition wrapper_headers (defaults options : obj) : obj :=
  spread2 (own_props (or_else (prop "headers" defaults) (VObj [])))
          (own_props (or_else (prop "headers" options) (VObj []))).

Definition content_type_unset (hdrs : obj) : bool :=
  negb (truthy (prop "content-type" hdrs)) && negb (truthy (prop "Content-Type" hdrs)).

Definition wrapper_body (options hdrs : obj) : completion (class_body * obj) :=
  if truthy (prop "form" options) then
    ps <- URLSearchParams_new (prop "form" options) ;;
    Normal (Params ps,
            if content_type_unset hdrs
            then set "Content-Type" (VStr "application/x-www-form-urlencoded") hdrs
            else hdrs)
  else if truthy (prop "json" options) && truthy (prop "body" options)
          && is_object (prop "body" options) then
    Normal (Raw (VStr (JSON_stringify (prop "body" options))),
            if content_type_unset hdrs
            then set "Content-Type" (VStr "application/json") hdrs
            else hdrs)
  else Normal (Raw (prop "body" options), hdrs).

(** [{ method, headers, body, ...this.defaults }], then
    [delete fetchOptions.headers]. *)
Definition wrapper_fetchOptions (defaults options : obj) (bh : class_body * obj)
  : class_fetch :=
  let method :=
    or_else (prop "method" options) (or_else (prop "method" defaults) (VStr "GET")) in
  let fetchOptions :=
    assign [("method", Raw method); ("headers", Raw (VObj bh.2)); ("body", bh.1)]
           (map (fun kv => (kv.1, Raw kv.2)) defaults) in
  filter (fun kv => kv.1 <> "headers") fetchOptions.

Definition wrapper_request (defaults : obj) (options : value)
  : completion (value * class_fetch) :=
  let options := _normalizeOptions options in
  url <- wrapper_url options ;;
  let o := own_props options in
  bh <- wrapper_body o (wrapper_headers defaults o) ;;
  Normal (url, wrapper_fetchOptions defaults o bh).

(** The body as the wrapper parses it: the empty string when reading or
    parsing fails. *)
Definition wrapper_parse (res : Response) (options : obj) : value :=
  match read_body res with
  | Normal text =>
      if truthy (prop "json" options) then
        match JSON_parse text with
        | Some v => v
        | None => VStr ""
        end
      else VStr text
  | Throw _ => VStr ""
  end.

Definition _fetchWrapper (defaults : obj) (options : value)
  : completion wrapper_result :=
  r <- wrapper_request defaults options ;;
  match fetch r.1 r.2 with
  | Rejected e => Throw e
  | Fulfilled res =>
      let parsedBody := wrapper_parse res (own_props (_normalizeOptions options)) in
      let response :=
        [("statusCode", VNum (status res));
         ("headers", VObj (fromEntries (res_headers res)));
         ("url", VStr (res_url res));
         ("body", parsedBody)] in
      if negb (ok res) then
        Normal {| wr_error :=
                    Some (JsError ("Request failed with status " ++ dec_of_Z (status res)));
                  wr_response := response; wr_body := parsedBody |}
      else Normal {| wr_error := None; wr_response := response;
                     wr_body := parsedBody |}
  end.

Definition request (defaults : obj) (options : value) (callback : arg)
  : class_outcome :=
  match callback with
  | Fun f =>
      match _fetchWrapper defaults options with
      | Normal r => CallbackInvoked f (wr_error r) (Some (wr_response r)) (wr_body r)
      | Throw err => CallbackInvoked f (Some err) None VNull
      end
  | Val _ =>
      match _fetchWrapper defaults options with
      | Normal r => PromiseResolved (wr_body r)
      | Throw err => PromiseRejected err
      end
  end.

End Wrapper.

End ClassVariant.

(** ** The instance jar of the jar revision

    [createRequestInstance] keeps one jar per instance, created on the
    first call that asks for it with [jar: true].  A call in callback mode
    is followed here to its end, so that the jar it leaves is the jar the
    next call finds.  A jar given as an option value is an object of the
    cookie library and not a [value]; a [value] given as [jar] has none of
    a jar's methods. *)
Module JarSession.

(** A value used as a jar. *)
#[export] Instance not_a_jar : JarRevision.CookieJar value := {|
  JarRevision.getCookieString := fun _ _ =>
    Throw (JsTypeError "jar.getCookieString is not a function");
  JarRevision.setCookie := fun _ _ _ =>
    Throw (JsTypeError "activeJar.setCookie is not a function")
|}.

Section Session.
Context `{Platform} {Jar : Type} `{JarRevision.CookieJar Jar}.
(** [new tough.CookieJar()] *)
Variable new_jar : Jar.
Variable fetch : transport.

(** The closure of [createRequestInstance]: [defaultOptions] and
    [instanceJar]. *)
Record jar_instance : Type := {
  ji_defaults : obj;
  instanceJar : option Jar
}.

Inductive active_jar : Type :=
| InstanceJar (j : Jar)
| OtherValue (v : value)
| NoJar.

Definition select_jar (self : jar_instance) (finalOptions : obj)
  : jar_instance * active_jar :=
  match prop "jar" finalOptions with
  | VBool true =>
      let j := default new_jar (instanceJar self) in
      ({| ji_defaults := ji_defaults self; instanceJar := Some j |}, InstanceJar j)
  | v => if truthy v then (self, OtherValue v) else (self, NoJar)
  end.

Inductive jar_call_result : Type :=
| JarReturnsUndefined (callback : nat) (call : callback_call)
| JarReturnsRequest (request : DropinRequest) (jar : active_jar).

(** [mainRequest], with the instance as the call leaves it. *)
Definition mainRequest (self : jar_instance) (uri options callback : arg)
  : jar_call_result * jar_instance :=
  let opts := opts_of uri options in
  let callback := callback_of options callback in
  let finalOptions := spread2 (ji_defaults self) opts in
  let '(self, activeJar) := select_jar self finalOptions in
  match callback with
  | Fun f =>
      match activeJar with
      | InstanceJar j =>
          let '(c, j') := JarRevision.callback_path fetch finalOptions (Some j) in
          (JarReturnsUndefined f c,
           {| ji_defaults := ji_defaults self; instanceJar := j' |})
      | OtherValue v =>
          (JarReturnsUndefined f
             (JarRevision.callback_path fetch finalOptions (Some v)).1, self)
      | NoJar =>
          (JarReturnsUndefined f
             (JarRevision.callback_path fetch finalOptions (@None Jar)).1, self)
      end
  | Val _ => (JarReturnsRequest (new_DropinRequest finalOptions) activeJar, self)
  end.

(** [mainRequest.defaults]: the new instance has no jar yet. *)
Definition jar_defaults (self : jar_instance) (newDefaults : value)
  : completion jar_instance :=
  r <- defaults {| defaultOptions := ji_defaults self |} newDefaults ;;
  Normal {| ji_defaults := defaultOptions r; instanceJar := None |}.
End Session.

End JarSession.

(** ** The verb methods of the class variant, over the store *)
Module ClassHeap.
Import Heap.

(** [options = this._normalizeOptions(options); options.method = m]: the
    options object that [request] then receives.  Class code is strict:
    the assignment throws on a value that is not an object. *)
Definition verb_options (method : string) (options : hval) : M (completion loc) :=
  match options with
  | HStr s =>
      l <~ alloc [("url", HStr s)] ;;
      write l "method" (HStr method) ;;; ret (Normal l)
  | HRef l => write l "method" (HStr method) ;;; ret (Normal l)
  | _ => ret (Throw (JsTypeError "Cannot create property 'method'"))
  end.

End ClassHeap.

(** ** What the states of a request object have in common

    [options] are the options the request was made with. *)
Definition settled_consistently `{Platform} (options : obj) (this : DropinRequest)
  : Prop :=
  _options this = options
  /\ match _promise this with
     | Pending =>
         dr_phase this <> Finished /\ emitted this = [] /\ written this = ""
     | Resolved (WithBody body) =>
         dr_phase this = Finished /\ written this = ""
         /\ exists res, emitted this = [EvResponse res] /\ ok res = true
                        /\ consumeBody res options = Normal body
     | Resolved (WithResponse res) =>
         dr_phase this = Finished /\ written this = body_bytes (res_body res)
         /\ emitted this = [EvResponse res] /\ ok res = true
         /\ _isPiped this = true
     | RejectedWith e =>
         dr_phase this = Finished /\ written this = ""
         /\ (emitted this = [EvError e]
             \/ exists res, emitted this = [EvResponse res; EvError e])
     end.

(** ** The callback, when it throws

    [callback_path] follows a callback that returns.  A callback may also
    throw: [throws n c] is what it throws at its invocation number [n],
    made with the arguments [c], if it throws there.  What it throws inside
    the handler that delivers the body is caught by the [.catch] handler
    chained after that handler, which invokes the callback a second time;
    thrown from the [.catch] handler it is an unhandled rejection, and
    thrown from the synchronous [catch] block it leaves [mainRequest]. *)
Inductive escape : Type :=
| ThrownToCaller (e : js_error)
| UnhandledRejection (e : js_error).

Record callback_run : Type := {
  invocations : list callback_call;
  escaped : option escape
}.

Definition callback_runs `{Platform} (fetch : transport) (finalOptions : obj)
  (throws : nat -> callback_call -> option js_error) : callback_run :=
  let caught err responseForCallback :=
    {| cb_when := Asynchronous; cb_error := Some err;
       cb_response := responseForCallback; cb_body := VNull |} in
  match translateOptions finalOptions with
  | Throw err =>
      let c := {| cb_when := Synchronous; cb_error := Some err;
                  cb_response := None; cb_body := VNull |} in
      {| invocations := [c];
         escaped := option_map ThrownToCaller (throws 0%nat c) |}
  | Normal (url, fetchOptions) =>
      match fetch url fetchOptions with
      | Rejected err =>
          let c := caught err None in
          {| invocations := [c];
             escaped := option_map UnhandledRejection (throws 0%nat c) |}
      | Fulfilled res =>
          let responseForCallback :=
            {| statusCode := status res;
               headers := fromEntries (res_headers res);
               lr_body := None |} in
          match consumeBody res finalOptions with
          | Throw err =>
              let c := caught err (Some responseForCallback) in
              {| invocations := [c];
                 escaped := option_map UnhandledRejection (throws 0%nat c) |}
          | Normal body =>
              let responseForCallback :=
                {| statusCode := status res;
                   headers := fromEntries (res_headers res);
                   lr_body := Some body |} in
              let c :=
                if statusCode responseForCallback >=? 400 then
                  {| cb_when := Asynchronous;
                     cb_error :=
                       Some (LegacyStatusError
                               ("HTTP Error "
                                ++ dec_of_Z (statusCode responseForCallback))
                               responseForCallback);
                     cb_response := Some responseForCallback; cb_body := body |}
                else
                  {| cb_when := Asynchronous; cb_error := None;
                     cb_response := Some responseForCallback; cb_body := body |} in
              match throws 0%nat c with
              | None => {| invocations := [c]; escaped := None |}
              | Some err =>
                  let c' := caught err (Some responseForCallback) in
                  {| invocations := [c; c'];
                     escaped := option_map UnhandledRejection (throws 1%nat c') |}
              end
          end
      end
  end.

(** * Properties *)

(** ** The request object along a trace *)

Section Traces.
Context `{Platform}.
Variable fetch : transport.

Lemma run_app (this : DropinRequest) (t1 t2 : list action) :
  run fetch this (t1 ++ t2) = run fetch (run fetch this t1) t2.
Proof. unfold run. apply fold_left_app. Qed.

(** Attaching destinations only raises the flag and records them. *)
Lemma run_pipes (ds : list nat) (this : DropinRequest) :
  run fetch this (map Pipe ds) =
  {| _options := _options this;
     _isPiped := _isPiped this || nonempty ds;
     _promise := _promise this; emitted := emitted this;
     written := written this;
     destinations := (destinations this ++ ds)%list;
     dr_phase := dr_phase this |}.
Proof.
  revert this. induction ds as [|d ds IH]; intros this.
  - destruct this; cbn. now rewrite orb_false_r, app_nil_r.
  - change (run fetch this (map Pipe (d :: ds)))
      with (run fetch (pipe d this) (map Pipe ds)).
    rewrite IH. cbn. rewrite <- app_assoc. now destruct (_isPiped this).
Qed.

(** A request whose options translate, observed when the transport
    settles: destinations may have been attached before or after the
    dispatch. *)
Lemma run_to_settlement (options : obj) (url : value) (fo : FetchOptions)
  (ds1 ds2 : list nat) :
  translateOptions options = Normal (url, fo) ->
  run fetch (new_DropinRequest options)
      (map Pipe ds1 ++ NextTick :: map Pipe ds2 ++ [TransportSettles]) =
  on_settled
    {| _options := options;
       _isPiped := nonempty ds1 || nonempty ds2;
       _promise := Pending; emitted := []; written := "";
       destinations := (ds1 ++ ds2)%list;
       dr_phase := InFlight (fetch url fo) |}.
Proof.
  intros Ht.
  rewrite run_app, run_pipes.
  change (run fetch ?s (NextTick :: ?t)) with (run fetch (_init fetch s) t).
  unfold _init; cbn [dr_phase new_DropinRequest _options]. rewrite Ht.
  rewrite run_app, run_pipes. reflexivity.
Qed.

(** A request whose options do not translate fails on the first tick. *)
Lemma run_translate_throws (options : obj) (err : js_error) (ds : list nat) :
  translateOptions options = Throw err ->
  let this := run fetch (new_DropinRequest options) (map Pipe ds ++ [NextTick]) in
  _promise this = RejectedWith err /\ emitted this = [EvError err].
Proof.
  intros Ht. cbn zeta. rewrite run_app, run_pipes.
  cbn [run fold_left step]. unfold _init; cbn [dr_phase new_DropinRequest _options].
  rewrite Ht. now cbn.
Qed.
End Traces.

(** ** Classification of responses (C1) *)

Section Classification.
Context `{Platform}.
Variable fetch : transport.

(** The promise path settles by [Response.ok]: it resolves exactly for the
    statuses 200..299. *)
Lemma promise_path_resolves_iff_ok (options : obj) (url : value)
  (fo : FetchOptions) (res : Response) (bytes : string) (ds1 ds2 : list nat) :
  translateOptions options = Normal (url, fo) ->
  fetch url fo = Fulfilled res ->
  res_body res = BodyComplete bytes ->
  let this := run fetch (new_DropinRequest options)
                (map Pipe ds1 ++ NextTick :: map Pipe ds2 ++ [TransportSettles]) in
  (exists v, _promise this = Resolved v) <-> (200 <= status res <= 299).
Proof.
  intros Ht Hf Hb. cbn zeta. rewrite (run_to_settlement _ _ _ _ _ _ Ht).
  unfold on_settled; cbn [dr_phase _isPiped _options]. rewrite Hf.
  assert (Hc : exists body, consumeBody res options = Normal body).
  { unfold consumeBody, read_body. rewrite Hb. cbn.
    repeat case_match; eauto. }
  destruct Hc as [body Hc]. rewrite Hc, Hb. cbn [Readable_fromWeb body_bytes].
  unfold ok. destruct (200 <=? status res) eqn:E1, (status res <=? 299) eqn:E2;
    cbn [andb negb]; try (split; [intros [v Hv]; discriminate Hv | lia]).
  split; [lia | intros _].
  destruct (nonempty ds1 || nonempty ds2); cbn; eauto.
Qed.

(** The callback path compares the status with 400. *)
Lemma callback_path_succeeds_iff_below_400 (options : obj) (url : value)
  (fo : FetchOptions) (res : Response) (bytes : string) :
  translateOptions options = Normal (url, fo) ->
  fetch url fo = Fulfilled res ->
  res_body res = BodyComplete bytes ->
  cb_error (callback_path fetch options) = None <-> status res < 400.
Proof.
  intros Ht Hf Hb. unfold callback_path. rewrite Ht, Hf.
  assert (Hc : exists body, consumeBody res options = Normal body).
  { unfold consumeBody, read_body. rewrite Hb. cbn.
    repeat case_match; eauto. }
  destruct Hc as [body Hc]. rewrite Hc. cbn [statusCode].
  destruct (status res >=? 400) eqn:E; cbn [cb_error]; split; intros; try lia;
    try discriminate; reflexivity.
Qed.
End Classification.

Section Examples.
#[local] Existing Instance Reference.platform.

(** C1 (the code departs from the claim).  A response with status 399,
    which the claim counts as a success: the object returned by a call
    without callback rejects its promise with an HTTP error, while the
    same response in callback mode is reported without error.  The
    promise path tests [Response.ok]; the callback path tests
    [statusCode >= 400]. *)
Theorem status_399_rejected_by_promise_path :
  let res := {| status := 399; statusText := "Unassigned"; res_headers := [];
                res_body := BodyComplete "ok" |} in
  let fetch : transport := fun _ _ => Fulfilled res in
  let uri := Val (VStr "https://example.com/") in
  let opts := [("url", VStr "https://example.com/")] in
  mainRequest fetch request uri (Val VUndefined) (Val VUndefined)
    = Normal (ReturnsRequest (new_DropinRequest opts))
  /\ _promise (run fetch (new_DropinRequest opts) [NextTick; TransportSettles])
     = RejectedWith (StatusError "HTTP Error: 399 Unassigned" 399 res (VStr "ok") opts)
  /\ (exists c, mainRequest fetch request uri (Fun 0) (Val VUndefined)
                = Normal (ReturnsUndefined 0 c)
                /\ cb_error c = None /\ cb_body c = VStr "ok").
Proof.
  cbn zeta. split; [reflexivity|]. split; [reflexivity|].
  eexists. split; [reflexivity|]. split; reflexivity.
Qed.

(** The same for 304 Not Modified, which a conditional request receives. *)
Lemma status_304_rejected_by_promise_path :
  let res := {| status := 304; statusText := "Not Modified"; res_headers := [];
                res_body := BodyComplete "" |} in
  let fetch : transport := fun _ _ => Fulfilled res in
  let opts := [("url", VStr "https://example.com/")] in
  _promise (run fetch (new_DropinRequest opts) [NextTick; TransportSettles])
    = RejectedWith (StatusError "HTTP Error: 304 Not Modified" 304 res (VStr "") opts)
  /\ cb_error (callback_path fetch opts) = None.
Proof. cbn zeta. split; reflexivity. Qed.

(** C2, counterexample.  A call without callback and without URL returns
    its object normally, the promise still pending: nothing is thrown
    while the object is built.  The error arrives through the promise (and
    an ['error'] event) on the next tick. *)
Lemma missing_url_not_thrown_at_construction :
  let fetch : transport := fun _ _ => Rejected (TransportFailure "unused") in
  let uri := Val (VObj [("json", VBool true)]) in
  exists this,
    mainRequest fetch request uri (Val VUndefined) (Val VUndefined)
      = Normal (ReturnsRequest this)
    /\ _promise this = Pending
    /\ emitted this = []
    /\ _promise (run fetch this [NextTick]) = RejectedWith (JsError "URL is required.").
Proof. cbn zeta. eexists. repeat split; reflexivity. Qed.

(** C4, counterexample.  A transport-level failure in callback mode: the
    callback receives the error and [null] for the response. *)
Lemma transport_failure_gives_null_response :
  let fetch : transport := fun _ _ => Rejected (TransportFailure "ECONNREFUSED") in
  mainRequest fetch request (Val (VStr "https://example.com/")) (Fun 0) (Val VUndefined)
  = Normal (ReturnsUndefined 0
              {| cb_when := Asynchronous;
                 cb_error := Some (TransportFailure "ECONNREFUSED");
                 cb_response := None; cb_body := VNull |}).
Proof. reflexivity. Qed.

(** Scenarios of the test suite, run on the embedding. *)
Example test_404_in_callback_mode :
  let res := {| status := 404; statusText := "Not Found";
                res_headers := [("content-type", "application/json")];
                res_body := BodyComplete "{}" |} in
  let fetch : transport := fun _ _ => Fulfilled res in
  let r := {| statusCode := 404;
              headers := [("content-type", VStr "application/json")];
              lr_body := Some (VStr "{}") |} in
  verb fetch request "get" (Val (VStr "https://example.com/posts/999999"))
    (Fun 0) (Val VUndefined)
  = Normal (ReturnsUndefined 0
              {| cb_when := Asynchronous;
                 cb_error := Some (LegacyStatusError "HTTP Error 404" r);
                 cb_response := Some r; cb_body := VStr "{}" |}).
Proof. reflexivity. Qed.

Example test_basic_authentication :
  exists url fo,
    translateOptions [("url", VStr "https://example.com/basic-auth");
                      ("auth", VObj [("user", VStr "testuser");
                                     ("pass", VStr "testpass")]);
                      ("json", VBool true)]
    = Normal (url, fo)
    /\ fo_headers fo = [("Authorization", VStr "Basic dGVzdHVzZXI6dGVzdHBhc3M=")]
    /\ fo_body fo = None.
Proof. eexists. eexists. split; [reflexivity|]. split; reflexivity. Qed.

Example test_binary_body :
  consumeBody {| status := 200; statusText := "OK"; res_headers := [];
                 res_body := BodyComplete "PNG" |}
              [("url", VStr "https://example.com/image"); ("encoding", VNull)]
  = Normal (VBuffer "PNG").
Proof. reflexivity. Qed.

Example test_json_round_trip :
  let options := [("url", VStr "https://example.com/posts"); ("json", VBool true);
                  ("body", VObj [("title", VStr "foo"); ("userId", VNum 1)]);
                  ("method", VStr "post")] in
  exists url fo text,
    translateOptions options = Normal (url, fo)
    /\ fo_method fo = "POST"
    /\ fo_body fo = Some (VStr text)
    /\ consumeBody {| status := 201; statusText := "Created"; res_headers := [];
                      res_body := BodyComplete text |} options
       = Normal (VObj [("title", VStr "foo"); ("userId", VNum 1)]).
Proof.
  cbn zeta. do 3 eexists. split; [reflexivity|]. split; [reflexivity|].
  split; reflexivity.
Qed.
End Examples.

(** ** A missing URL (C2) *)

Section MissingURL.
Context `{Platform}.
Variable fetch : transport.

Lemma translate_missing_url (options : obj) (method : string) :
  method_of options = Normal method ->
  truthy (url_of options) = false ->
  translateOptions options = Throw (JsError "URL is required.").
Proof.
  unfold translateOptions. intros -> Hu. cbn [bind].
  now rewrite Hu.
Qed.

(** C2, as amended.  When the merged options have no URL, no call throws.
    Without a callback the object is returned with its promise pending
    and nothing emitted; its first tick rejects the promise with the
    missing-URL error and emits it as an ['error'] event.  With a
    callback, the callback receives the error as its first argument,
    before the call returns, with [null] for the response and the
    body. *)
Theorem missing_url_is_delivered_not_thrown (self : instance)
  (uri options callback : arg) (method : string) :
  let finalOptions := spread2 (defaultOptions self) (opts_of uri options) in
  method_of finalOptions = Normal method ->
  truthy (url_of finalOptions) = false ->
  match callback_of options callback with
  | Val _ =>
      exists this,
        mainRequest fetch self uri options callback = Normal (ReturnsRequest this)
        /\ _promise this = Pending /\ emitted this = []
        /\ forall ds,
             let this' := run fetch this (map Pipe ds ++ [NextTick]) in
             _promise this' = RejectedWith (JsError "URL is required.")
             /\ emitted this' = [EvError (JsError "URL is required.")]
  | Fun f =>
      mainRequest fetch self uri options callback
      = Normal (ReturnsUndefined f
                  {| cb_when := Synchronous;
                     cb_error := Some (JsError "URL is required.");
                     cb_response := None; cb_body := VNull |})
  end.
Proof.
  intros finalOptions Hm Hu.
  pose proof (translate_missing_url _ _ Hm Hu) as Ht.
  unfold mainRequest. fold finalOptions.
  destruct (callback_of options callback) as [v|f].
  - eexists. split; [reflexivity|]. split; [reflexivity|]. split; [reflexivity|].
    intros ds. now apply run_translate_throws.
  - unfold callback_path. now rewrite Ht.
Qed.
End MissingURL.

(** ** Streaming and buffering (C5) *)

Section DualMode.
Context `{Platform}.
Variable fetch : transport.

(** For one successful response: if a destination was attached before
    the response is handled (before or after the dispatch) and the
    response has a body stream, the body bytes are written into the stream
    and the promise resolves with the transport response; if none was
    attached, nothing is written and the promise resolves with what
    [consumeBody] makes of the body. *)
Lemma streaming_versus_buffering (options : obj) (url : value)
  (fo : FetchOptions) (res : Response) (ds1 ds2 : list nat) :
  translateOptions options = Normal (url, fo) ->
  fetch url fo = Fulfilled res ->
  ok res = true ->
  let piped := run fetch (new_DropinRequest options)
                 (map Pipe ds1 ++ NextTick :: map Pipe ds2 ++ [TransportSettles]) in
  let unpiped := run fetch (new_DropinRequest options) [NextTick; TransportSettles] in
  (nonempty (ds1 ++ ds2) = true ->
     res_body res <> BodyNull ->
     _promise piped = Resolved (WithResponse res)
     /\ written piped = body_bytes (res_body res)
     /\ destinations piped = (ds1 ++ ds2)%list)
  /\ (forall body, consumeBody res options = Normal body ->
        _promise unpiped = Resolved (WithBody body) /\ written unpiped = "").
Proof.
  intros Ht Hf Hok. cbn zeta. split.
  - intros Hne Hbody. rewrite (run_to_settlement _ _ _ _ _ _ Ht).
    unfold on_settled; cbn [dr_phase _isPiped _options]. rewrite Hf, Hok.
    cbn [negb].
    assert (nonempty ds1 || nonempty ds2 = true) as ->.
    { destruct ds1, ds2; cbn in *; congruence. }
    destruct (res_body res); [now cbn | now cbn | contradiction].
  - intros body Hc.
    pose proof (run_to_settlement fetch _ _ _ [] [] Ht) as Hr.
    cbn [map app] in Hr. rewrite Hr.
    unfold on_settled; cbn [dr_phase _isPiped _options nonempty orb].
    rewrite Hf, Hok, Hc. now cbn.
Qed.

(** A successful response without a body stream, as a HEAD request and
    the statuses 204 and 205 give: with a destination attached,
    [Readable.fromWeb] throws, and the request fails after its ['response']
    event; nothing is written. *)
Lemma piped_without_body_stream_rejects (options : obj) (url : value)
  (fo : FetchOptions) (res : Response) (ds1 ds2 : list nat) :
  translateOptions options = Normal (url, fo) ->
  fetch url fo = Fulfilled res ->
  ok res = true ->
  res_body res = BodyNull ->
  nonempty (ds1 ++ ds2) = true ->
  let piped := run fetch (new_DropinRequest options)
                 (map Pipe ds1 ++ NextTick :: map Pipe ds2 ++ [TransportSettles]) in
  _promise piped = RejectedWith fromWeb_null_error
  /\ emitted piped = [EvResponse res; EvError fromWeb_null_error]
  /\ written piped = "".
Proof.
  intros Ht Hf Hok Hb Hne. cbn zeta. rewrite (run_to_settlement _ _ _ _ _ _ Ht).
  unfold on_settled; cbn [dr_phase _isPiped _options]. rewrite Hf, Hok, Hb.
  cbn [negb].
  assert (nonempty ds1 || nonempty ds2 = true) as ->.
  { destruct ds1, ds2; cbn in *; congruence. }
  now cbn.
Qed.
End DualMode.

Section NullBody.
#[local] Existing Instance Reference.platform.
#[local] Existing Instance Reference.jar.

(** C5 (the code departs from the claim).  A successful response with
    status 204, which has no body stream, to a request with a destination
    attached: the claim has the promise resolve with the response and the
    (empty) body forwarded; the object rejects its promise with the
    [TypeError] of [Readable.fromWeb] and emits ['error'], in the canonical
    module and in the jar revision.  The same response without a
    destination resolves with the empty body. *)
Theorem piped_204_response_rejects :
  let res := {| status := 204; statusText := "No Content"; res_headers := [];
                res_body := BodyNull |} in
  let fetch : transport := fun _ _ => Fulfilled res in
  let url := VStr "https://example.com/a" in
  let options := [("url", url)] in
  let piped := run fetch (new_DropinRequest options)
                 [Pipe 1; NextTick; TransportSettles] in
  let unpiped := run fetch (new_DropinRequest options) [NextTick; TransportSettles] in
  let jar_piped :=
    (JarRevision.on_settled (@None string) url
       (JarRevision._init fetch (@None string)
          (pipe 1 (new_DropinRequest options))).1).1 in
  ok res = true
  /\ _promise piped = RejectedWith fromWeb_null_error
  /\ emitted piped = [EvResponse res; EvError fromWeb_null_error]
  /\ written piped = ""
  /\ _promise unpiped = Resolved (WithBody (VStr ""))
  /\ _promise jar_piped = RejectedWith fromWeb_null_error
  /\ emitted jar_piped = [EvResponse res; EvError fromWeb_null_error].
Proof.
  cbn zeta. split; [reflexivity|].
  split; [reflexivity|]. split; [reflexivity|]. split; [reflexivity|].
  split; [reflexivity|]. split; reflexivity.
Qed.
End NullBody.

(** ** Malformed JSON (C7) *)

Section MalformedJSON.
Context `{Platform}.
Variable fetch : transport.

(** C7.  With [json] requested and decoding not disabled, the whole body
    is read as text and parsed; when the parse fails the text itself is
    the result.  A malformed body changes nothing in how the request is
    reported: in both modes success or failure follows the status alone,
    and the text is delivered as the body. *)
Theorem malformed_json_degrades_to_text (options : obj) (url : value)
  (fo : FetchOptions) (res : Response) (text : string) :
  is_null (prop "encoding" options) = false ->
  truthy (prop "json" options) = true ->
  res_body res = BodyComplete text ->
  consumeBody res options
    = Normal (match JSON_parse text with Some v => v | None => VStr text end)
  /\ (JSON_parse text = None ->
      translateOptions options = Normal (url, fo) ->
      fetch url fo = Fulfilled res ->
      let c := callback_path fetch options in
      let this := run fetch (new_DropinRequest options) [NextTick; TransportSettles] in
      cb_body c = VStr text
      /\ (status res < 400 -> cb_error c = None)
      /\ (ok res = true -> _promise this = Resolved (WithBody (VStr text)))
      /\ (ok res = false ->
          _promise this =
          RejectedWith (StatusError
                          ("HTTP Error: " ++ dec_of_Z (status res) ++ " " ++ statusText res)
                          (status res) res (VStr text) options))).
Proof.
  intros He Hj Hb.
  assert (Hc : consumeBody res options
               = Normal (match JSON_parse text with Some v => v | None => VStr text end)).
  { unfold consumeBody, read_body. rewrite He, Hj, Hb. cbn.
    now destruct (JSON_parse text). }
  split; [exact Hc|].
  intros Hp Ht Hf. rewrite Hp in Hc. cbn zeta.
  pose proof (run_to_settlement fetch _ _ _ [] [] Ht) as Hr.
  cbn [map app] in Hr. rewrite Hr. clear Hr.
  unfold callback_path, on_settled; cbn [dr_phase _isPiped _options nonempty orb].
  rewrite Ht, Hf, Hc. cbn [statusCode].
  split; [|split; [|split]].
  - now destruct (status res >=? 400).
  - intros Hs. destruct (status res >=? 400) eqn:E; [lia | reflexivity].
  - intros ->. reflexivity.
  - intros ->. reflexivity.
Qed.
End MalformedJSON.

(** ** Properties of objects *)

Section ObjectLemmas.
Context {V : Type}.
Implicit Types (o : list (string * V)) (k : string) (v : V).

Lemma get_set_eq k v o : get k (set k v o) = Some v.
Proof.
  induction o as [|[k' v'] o IH]; cbn.
  - now rewrite String.eqb_refl.
  - destruct (String.eqb k k') eqn:E; cbn; rewrite ?String.eqb_refl, ?E; auto.
Qed.

Lemma get_set_ne k k' v o : k <> k' -> get k' (set k v o) = get k' o.
Proof.
  intros Hne. induction o as [|[k2 v2] o IH]; cbn.
  - destruct (String.eqb k' k) eqn:E; [apply String.eqb_eq in E; congruence | reflexivity].
  - destruct (String.eqb k k2) eqn:E; cbn.
    + apply String.eqb_eq in E; subst k2.
      destruct (String.eqb k' k) eqn:E'; [apply String.eqb_eq in E'; congruence | reflexivity].
    + now rewrite IH.
Qed.
End ObjectLemmas.

(** ** The body branches (C3) *)

Section BodyBranches.
Context `{Platform}.

Lemma translateOptions_inv (options : obj) (url : value) (fo : FetchOptions) :
  translateOptions options = Normal (url, fo) ->
  exists method body hdrs,
    method_of options = Normal method
    /\ truthy (url_of options) = true
    /\ translate_body options (translate_auth options (copy_headers options))
       = Normal (body, hdrs)
    /\ translate_qs options (url_of options) = Normal url
    /\ fo = {| fo_method := method; fo_headers := hdrs;
               fo_signal := if truthy (prop "timeout" options)
                            then Some (prop "timeout" options) else None;
               fo_body := body |}.
Proof.
  unfold translateOptions. intros Ht.
  destruct (method_of options) as [method|] eqn:Hm; [|discriminate]. cbn [bind] in Ht.
  destruct (truthy (url_of options)) eqn:Hu; [|discriminate]. cbn [negb] in Ht.
  destruct (translate_body _ _) as [[body hdrs]|] eqn:Hb; [|discriminate].
  cbn [bind] in Ht.
  destruct (translate_qs _ _) as [url'|] eqn:Hq; [|discriminate].
  cbn in Ht. injection Ht as <- <-. now exists method, body, hdrs.
Qed.

(** C3.  The outgoing body and the headers inferred from it, relative to
    [hdrs], the copy of the caller's headers (with [Authorization] when
    [auth] is given).  Exactly one of three cases applies.
    (a) [json] is set and [body] is not [undefined]: the body is the JSON
    text of [body], [Content-Type] is [application/json] whatever the
    caller supplied, and [Accept] is [application/json] unless the caller
    set one.
    (b) otherwise [form] is present: the body is its URL-encoding and
    [Content-Type] is [application/x-www-form-urlencoded] whatever the
    caller supplied.
    (c) otherwise the headers are [hdrs] unchanged and a body, if any, is
    the caller's value itself. *)
Theorem body_precedence (options : obj) (url : value) (fo : FetchOptions) :
  translateOptions options = Normal (url, fo) ->
  let hdrs := translate_auth options (copy_headers options) in
  let json := truthy (prop "json" options) && negb (is_undefined (prop "body" options)) in
  let form := truthy (prop "form" options) in
  (json = true ->
     fo_body fo = Some (VStr (JSON_stringify (prop "body" options)))
     /\ get "Content-Type" (fo_headers fo) = Some (VStr "application/json")
     /\ get "Accept" (fo_headers fo)
        = (if truthy (prop "Accept" hdrs) then get "Accept" hdrs
           else Some (VStr "application/json"))
     /\ forall k, k <> "Content-Type" -> k <> "Accept" ->
                  get k (fo_headers fo) = get k hdrs)
  /\ (json = false -> form = true ->
      exists ps,
        URLSearchParams_new (prop "form" options) = Normal ps
        /\ fo_body fo = Some (VStr (urlencoded_serialize ps))
        /\ get "Content-Type" (fo_headers fo)
           = Some (VStr "application/x-www-form-urlencoded")
        /\ forall k, k <> "Content-Type" -> get k (fo_headers fo) = get k hdrs)
  /\ (json = false -> form = false ->
      fo_headers fo = hdrs
      /\ fo_body fo = if truthy (prop "body" options)
                      then Some (prop "body" options) else None).
Proof.
  intros Ht hdrs json form.
  destruct (translateOptions_inv _ _ _ Ht) as (method & body & h & _ & _ & Hb & _ & ->).
  fold hdrs in Hb. unfold translate_body in Hb. fold json form in Hb.
  cbn [fo_body fo_headers].
  split; [|split].
  - intros Hj. rewrite Hj in Hb.
    assert (Hacc : prop "Accept" (set "Content-Type" (VStr "application/json") hdrs)
                   = prop "Accept" hdrs).
    { unfold prop. now rewrite get_set_ne. }
    rewrite Hacc in Hb.
    destruct (truthy (prop "Accept" hdrs)) eqn:Ha; injection Hb as <- <-.
    + split; [reflexivity|]. split; [apply get_set_eq|].
      split; [now rewrite get_set_ne|].
      intros k Hk _. now rewrite get_set_ne.
    + split; [reflexivity|].
      split; [rewrite get_set_ne by discriminate; apply get_set_eq|].
      split; [apply get_set_eq|].
      intros k Hk Hk'. now rewrite !get_set_ne by congruence.
  - intros Hj Hf. rewrite Hj, Hf in Hb.
    destruct (URLSearchParams_new (prop "form" options)) as [ps|] eqn:Hps;
      [|discriminate].
    cbn in Hb. injection Hb as <- <-. exists ps.
    split; [reflexivity|]. split; [reflexivity|]. split; [apply get_set_eq|].
    intros k Hk. now rewrite get_set_ne by congruence.
  - intros Hj Hf. rewrite Hj, Hf in Hb.
    destruct (truthy (prop "body" options)); now injection Hb as <- <-.
Qed.
End BodyBranches.

(** ** The query string (C8) *)

Section QueryString.
Context `{Platform}.

Lemma append_all_spec (entries : obj) (u : URL) :
  append_all entries u =
  let added := map (fun kv => (kv.1, to_string kv.2)) entries in
  {| url_prefix := url_prefix u;
     url_query := if nonempty added
                  then Some (urlencoded_serialize (url_params u ++ added))
                  else url_query u;
     url_fragment := url_fragment u;
     url_params := (url_params u ++ added)%list |}.
Proof.
  unfold append_all. revert u.
  induction entries as [|[k v] entries IH]; intros u; cbn.
  - rewrite app_nil_r. now destruct u.
  - rewrite IH. cbn. rewrite <- !app_assoc. cbn.
    now destruct (map _ entries).
Qed.

(** C8.  With a [qs] mapping, the URL handed to the transport is the
    parsed target URL with every [qs] entry appended, in order, after the
    pairs its query string already had: the earlier pairs all remain, also
    those whose key a [qs] entry repeats.  The query component is the
    application/x-www-form-urlencoded serialisation of that list. *)
Theorem qs_entries_are_appended (options : obj) (url : value) (fo : FetchOptions) :
  translateOptions options = Normal (url, fo) ->
  truthy (prop "qs" options) = true ->
  exists u,
    URL_parse (to_string (url_of options)) = Some u
    /\ url = VStr (URL_href
                     {| url_prefix := url_prefix u;
                        url_query :=
                          if nonempty (qs_entries options)
                          then Some (urlencoded_serialize
                                       (url_params u ++ qs_entries options))
                          else url_query u;
                        url_fragment := url_fragment u;
                        url_params := (url_params u ++ qs_entries options)%list |}).
Proof.
  intros Ht Hq.
  destruct (translateOptions_inv _ _ _ Ht) as (_ & _ & _ & _ & _ & _ & Hqs & _).
  unfold translate_qs in Hqs. rewrite Hq in Hqs.
  destruct (URL_parse _) as [u|]; [|discriminate].
  injection Hqs as <-. exists u. split; [reflexivity|].
  now rewrite append_all_spec.
Qed.

(** The percent-encoding of the serialiser. *)
Example urlencode_space_and_reserved :
  urlencoded_serialize [("b", "hello world"); ("c d", "a&b=c/~")]
  = "b=hello+world&c+d=a%26b%3Dc%2F%7E".
Proof. reflexivity. Qed.
End QueryString.

(** ** The Cookie header of the jar revision (C9) *)

Section CookieHeader.
Context `{Platform} {Jar : Type} `{JarRevision.CookieJar Jar}.

Lemma translate_auth_other (options hdrs : obj) (k : string) :
  k <> "Authorization" ->
  get k (translate_auth options hdrs) = get k hdrs.
Proof.
  intros Hk. unfold translate_auth.
  destruct (truthy (prop "auth" options)); [|reflexivity].
  now rewrite get_set_ne by congruence.
Qed.

Lemma translate_body_other (options hdrs hdrs' : obj) (body : option value)
  (k : string) :
  translate_body options hdrs = Normal (body, hdrs') ->
  k <> "Content-Type" -> k <> "Accept" ->
  get k hdrs' = get k hdrs.
Proof.
  unfold translate_body. intros Hb Hc Ha.
  destruct (_ && _).
  - destruct (truthy _); injection Hb as <- <-;
      now rewrite !get_set_ne by congruence.
  - destruct (truthy (prop "form" options)).
    + destruct (URLSearchParams_new _); [|discriminate].
      cbn in Hb. injection Hb as <- <-. now rewrite get_set_ne by congruence.
    + destruct (truthy _); now injection Hb as <- <-.
Qed.

(** Without a jar the revision translates as the canonical module does. *)
Lemma translateOptions_without_jar (options : obj) :
  JarRevision.translateOptions options (@None Jar) = translateOptions options.
Proof. reflexivity. Qed.

(** C9.  With an active jar, the translation looks up the jar's cookie
    string for the target URL.  A non-empty string becomes the [Cookie]
    header.  An empty string changes nothing: the translation is the one
    made without a jar, and the [Cookie] header is the one of the copy of
    the caller's headers. *)
Theorem cookie_header_only_when_nonempty (options : obj) (j : Jar)
  (url : value) (fo : FetchOptions) :
  JarRevision.translateOptions options (Some j) = Normal (url, fo) ->
  exists cookieString,
    JarRevision.getCookieString j (url_of options) = Normal cookieString
    /\ (cookieString <> "" ->
        get "Cookie" (fo_headers fo) = Some (VStr cookieString))
    /\ (cookieString = "" ->
        JarRevision.translateOptions options (@None Jar) = Normal (url, fo)
        /\ get "Cookie" (fo_headers fo) = get "Cookie" (copy_headers options)).
Proof.
  unfold JarRevision.translateOptions, JarRevision.translate_cookie. intros Ht.
  destruct (method_of options) as [method|]; [|discriminate]. cbn [bind] in Ht |- *.
  destruct (truthy (url_of options)); [|discriminate]. cbn [negb] in Ht |- *.
  destruct (JarRevision.getCookieString j (url_of options)) as [c|]; [|discriminate].
  cbn [bind] in Ht. exists c. split; [reflexivity|].
  destruct (String.eqb c "") eqn:Ec; cbn [negb bind] in Ht.
  - apply String.eqb_eq in Ec. subst c. split; [congruence|]. intros _.
    split; [exact Ht|].
    destruct (translate_body _ _) as [[body hdrs]|] eqn:Hb; [|discriminate].
    cbn [bind] in Ht. destruct (translate_qs _ _); [|discriminate].
    injection Ht as <- <-. cbn [fo_headers snd].
    rewrite (translate_body_other _ _ _ _ "Cookie" Hb) by discriminate.
    now rewrite translate_auth_other by discriminate.
  - split; [|intros ->; discriminate]. intros _.
    destruct (translate_body _ _) as [[body hdrs]|] eqn:Hb; [|discriminate].
    cbn [bind] in Ht. destruct (translate_qs _ _); [|discriminate].
    injection Ht as <- <-. cbn [fo_headers snd].
    rewrite (translate_body_other _ _ _ _ "Cookie" Hb) by discriminate.
    rewrite translate_auth_other by discriminate. apply get_set_eq.
Qed.
End CookieHeader.

(** ** The jar revision on the same questions *)

Section JarRevisionPaths.
Context `{Platform} {Jar : Type} `{JarRevision.CookieJar Jar}.
Variable fetch : transport.

(** In the jar revision too, the callback receives [null] for the response
    when the translation fails (now reported after the call has returned),
    when the transport call fails, and also when updating the jar fails:
    in each case before [responseForCallback] is assigned. *)
Lemma jar_callback_null_response (finalOptions : obj) (activeJar : option Jar) :
  let c := (JarRevision.callback_path fetch finalOptions activeJar).1 in
  cb_when c = Asynchronous
  /\ (cb_response c = None <->
        (exists e, JarRevision.translateOptions finalOptions activeJar = Throw e)
        \/ (exists url fo, JarRevision.translateOptions finalOptions activeJar
                           = Normal (url, fo)
             /\ ((exists e, fetch url fo = Rejected e)
                 \/ (exists res e, fetch url fo = Fulfilled res
                                   /\ JarRevision.update_jar activeJar res url = Throw e)))).
Proof.
  cbn zeta. unfold JarRevision.callback_path.
  destruct (JarRevision.translateOptions finalOptions activeJar)
    as [[url fo]|e] eqn:Ht.
  - destruct (fetch url fo) as [res|e] eqn:Hf.
    + destruct (JarRevision.update_jar activeJar res url) as [jar|e] eqn:Hu.
      * assert (Hno : ~ ((exists e, @Normal (value * FetchOptions) (url, fo) = Throw e)
                         \/ (exists url' fo', Normal (url, fo) = Normal (url', fo')
                              /\ ((exists e, fetch url' fo' = Rejected e)
                                  \/ (exists res' e, fetch url' fo' = Fulfilled res'
                                        /\ JarRevision.update_jar activeJar res' url'
                                           = Throw e))))).
        { intros [[e He]|(u & f & Heq & Hor)]; [discriminate|].
          injection Heq as <- <-.
          destruct Hor as [[e He]|(r & e & Hr & He)]; [congruence|].
          rewrite Hf in Hr. injection Hr as <-. congruence. }
        destruct (consumeBody res finalOptions); [destruct (negb (ok res))|];
          cbn [fst cb_when cb_response]; (split; [reflexivity|]);
          (split; [discriminate | intros Hc; now destruct Hno]).
      * cbn. split; [reflexivity|]. split; [|reflexivity]. intros _. right.
        exists url, fo. split; [reflexivity|]. right. now exists res, e.
    + cbn. split; [reflexivity|]. split; [|reflexivity]. intros _. right.
      exists url, fo. split; [reflexivity|]. left. now exists e.
  - cbn. split; [reflexivity|]. split; [|reflexivity]. intros _. left. now exists e.
Qed.

(** ** The response given to the callback (C4) *)

(** C4, as amended.  In callback mode the response argument is [null]
    exactly when the call fails before the response object is built: the
    translation of the options threw (a missing URL among other errors),
    the transport call itself failed, or, in the jar revision, storing the
    cookies of the response failed.  In every other case, whatever the
    status and even if reading the body fails, the callback receives a
    constructed response carrying the status and the headers of the
    transport response. *)
Theorem legacy_response_null_iff_not_built (finalOptions : obj)
  (activeJar : option Jar) :
  let c := callback_path fetch finalOptions in
  let cj := (JarRevision.callback_path fetch finalOptions activeJar).1 in
  (cb_response c = None <->
     (exists e, translateOptions finalOptions = Throw e)
     \/ (exists url fo e, translateOptions finalOptions = Normal (url, fo)
                          /\ fetch url fo = Rejected e))
  /\ (forall r, cb_response c = Some r <->
        exists url fo res,
          translateOptions finalOptions = Normal (url, fo)
          /\ fetch url fo = Fulfilled res
          /\ r = {| statusCode := status res;
                    headers := fromEntries (res_headers res);
                    lr_body := match consumeBody res finalOptions with
                               | Normal body => Some body
                               | Throw _ => None
                               end |})
  /\ (cb_response c = None -> exists e, cb_error c = Some e)
  /\ (cb_response cj = None <->
        (exists e, JarRevision.translateOptions finalOptions activeJar = Throw e)
        \/ (exists url fo, JarRevision.translateOptions finalOptions activeJar
                           = Normal (url, fo)
             /\ ((exists e, fetch url fo = Rejected e)
                 \/ (exists res e, fetch url fo = Fulfilled res
                                   /\ JarRevision.update_jar activeJar res url = Throw e))))
  /\ (forall r, cb_response cj = Some r <->
        exists url fo res jar,
          JarRevision.translateOptions finalOptions activeJar = Normal (url, fo)
          /\ fetch url fo = Fulfilled res
          /\ JarRevision.update_jar activeJar res url = Normal jar
          /\ r = {| statusCode := status res;
                    headers := fromEntries (res_headers res);
                    lr_body := match consumeBody res finalOptions with
                               | Normal body => Some body
                               | Throw _ => None
                               end |})
  /\ (cb_response cj = None -> exists e, cb_error cj = Some e).
Proof.
  cbn zeta.
  assert (Hcanonical :
  (cb_response (callback_path fetch finalOptions) = None <->
     (exists e, translateOptions finalOptions = Throw e)
     \/ (exists url fo e, translateOptions finalOptions = Normal (url, fo)
                          /\ fetch url fo = Rejected e))
  /\ (forall r, cb_response (callback_path fetch finalOptions) = Some r <->
        exists url fo res,
          translateOptions finalOptions = Normal (url, fo)
          /\ fetch url fo = Fulfilled res
          /\ r = {| statusCode := status res;
                    headers := fromEntries (res_headers res);
                    lr_body := match consumeBody res finalOptions with
                               | Normal body => Some body
                               | Throw _ => None
                               end |})
  /\ (cb_response (callback_path fetch finalOptions) = None ->
      exists e, cb_error (callback_path fetch finalOptions) = Some e)).
  { unfold callback_path.
    destruct (translateOptions finalOptions) as [[url fo]|e] eqn:Ht.
    - destruct (fetch url fo) as [res|e] eqn:Hf.
      + assert (Hsome : forall c r0,
                  cb_response c = Some r0 ->
                  r0 = {| statusCode := status res;
                          headers := fromEntries (res_headers res);
                          lr_body := match consumeBody res finalOptions with
                                     | Normal body => Some body
                                     | Throw _ => None
                                     end |} ->
                  (cb_response c = None <->
                     (exists e, @Normal (value * FetchOptions) (url, fo) = Throw e)
                     \/ (exists url' fo' e,
                           Normal (url, fo) = Normal (url', fo')
                           /\ fetch url' fo' = Rejected e))
                  /\ (forall r, cb_response c = Some r <->
                        exists url' fo' res',
                          Normal (url, fo) = Normal (url', fo')
                          /\ fetch url' fo' = Fulfilled res'
                          /\ r = {| statusCode := status res';
                                    headers := fromEntries (res_headers res');
                                    lr_body := match consumeBody res' finalOptions with
                                               | Normal body => Some body
                                               | Throw _ => None
                                               end |})
                  /\ (cb_response c = None -> exists e, cb_error c = Some e)).
        { intros c r0 Hc ->. rewrite Hc. split; [|split].
          - split; [discriminate|].
            intros [[e' He]|(u & f & e' & [= <- <-] & Hr)]; congruence.
          - intros r. split.
            + intros [= <-]. now exists url, fo, res.
            + intros (u & f & res' & [= <- <-] & Hr & ->).
              rewrite Hf in Hr. now injection Hr as <-.
          - discriminate. }
        destruct (consumeBody res finalOptions) as [body|e] eqn:Hc;
          [destruct (_ >=? 400)|]; eapply Hsome; reflexivity.
      + cbn [cb_response cb_error]. split; [|split].
        * split; [|reflexivity]. intros _. right. now exists url, fo, e.
        * intros r. split; [discriminate|].
          intros (u & f & res' & [= <- <-] & Hr & _). congruence.
        * intros _. now exists e.
    - cbn [cb_response cb_error]. split; [|split].
      + split; [|reflexivity]. intros _. left. now exists e.
      + intros r. split; [discriminate|].
        intros (u & f & res' & Hn & _). discriminate.
      + intros _. now exists e. }
  destruct Hcanonical as (Hc1 & Hc2 & Hc3).
  split; [exact Hc1|]. split; [exact Hc2|]. split; [exact Hc3|].
  split; [exact (proj2 (jar_callback_null_response finalOptions activeJar))|].
  unfold JarRevision.callback_path.
  destruct (JarRevision.translateOptions finalOptions activeJar)
    as [[url fo]|e] eqn:Ht.
  - destruct (fetch url fo) as [res|e] eqn:Hf.
    + destruct (JarRevision.update_jar activeJar res url) as [jar|e] eqn:Hu.
      * assert (Hbuilt : forall cj r0,
                  cb_response cj = Some r0 ->
                  r0 = {| statusCode := status res;
                          headers := fromEntries (res_headers res);
                          lr_body := match consumeBody res finalOptions with
                                     | Normal body => Some body
                                     | Throw _ => None
                                     end |} ->
                  (forall r, cb_response cj = Some r <->
                     exists url' fo' res' jar',
                       @Normal (value * FetchOptions) (url, fo) = Normal (url', fo')
                       /\ fetch url' fo' = Fulfilled res'
                       /\ JarRevision.update_jar activeJar res' url' = Normal jar'
                       /\ r = {| statusCode := status res';
                                 headers := fromEntries (res_headers res');
                                 lr_body := match consumeBody res' finalOptions with
                                            | Normal body => Some body
                                            | Throw _ => None
                                            end |})
                  /\ (cb_response cj = None -> exists e, cb_error cj = Some e)).
        { intros cj r0 Hcj ->. rewrite Hcj. split; [|discriminate].
          intros r. split.
          - intros [= <-]. now exists url, fo, res, jar.
          - intros (u & f & res' & jar' & [= <- <-] & Hr & _ & ->).
            rewrite Hf in Hr. now injection Hr as <-. }
        destruct (consumeBody res finalOptions) as [body|e] eqn:Hc;
          [destruct (negb (ok res))|]; cbn [fst]; eapply Hbuilt; reflexivity.
      * cbn [fst cb_response cb_error]. split; [|intros _; now exists e].
        intros r. split; [discriminate|].
        intros (u & f & res' & jar' & [= <- <-] & Hr & Hu' & _).
        rewrite Hf in Hr. injection Hr as <-. congruence.
    + cbn [fst cb_response cb_error]. split; [|intros _; now exists e].
      intros r. split; [discriminate|].
      intros (u & f & res' & jar' & [= <- <-] & Hr & _). congruence.
  - cbn [fst cb_response cb_error]. split; [|intros _; now exists e].
    intros r. split; [discriminate|].
    intros (u & f & res' & jar' & Hn & _). discriminate.
Qed.

(** Both paths of the jar revision classify by [Response.ok]. *)
Lemma jar_callback_succeeds_iff_ok (finalOptions : obj) (activeJar jar : option Jar)
  (url : value) (fo : FetchOptions) (res : Response) (bytes : string) :
  JarRevision.translateOptions finalOptions activeJar = Normal (url, fo) ->
  fetch url fo = Fulfilled res ->
  JarRevision.update_jar activeJar res url = Normal jar ->
  res_body res = BodyComplete bytes ->
  cb_error (JarRevision.callback_path fetch finalOptions activeJar).1 = None
  <-> 200 <= status res <= 299.
Proof.
  intros Ht Hf Hu Hb. unfold JarRevision.callback_path. rewrite Ht, Hf, Hu.
  assert (Hc : exists body, consumeBody res finalOptions = Normal body).
  { unfold consumeBody, read_body. rewrite Hb. cbn. repeat case_match; eauto. }
  destruct Hc as [body ->]. unfold ok.
  destruct (200 <=? status res) eqn:E1, (status res <=? 299) eqn:E2;
    cbn [andb negb fst cb_error]; split; intros; try lia; try discriminate;
    reflexivity.
Qed.

(** The jar revision decides between streaming and buffering as the
    canonical module does. *)
Lemma jar_streaming_versus_buffering (this : DropinRequest) (activeJar jar : option Jar)
  (url : value) (res : Response) :
  dr_phase this = InFlight (Fulfilled res) ->
  JarRevision.update_jar activeJar res url = Normal jar ->
  ok res = true ->
  let this' := (JarRevision.on_settled activeJar url this).1 in
  (_isPiped this = true ->
     res_body res <> BodyNull ->
     _promise this' = promiseResolver (WithResponse res) (_promise this)
     /\ written this' = written this ++ body_bytes (res_body res))
  /\ (_isPiped this = false ->
      forall body, consumeBody res (_options this) = Normal body ->
                   _promise this' = promiseResolver (WithBody body) (_promise this)
                   /\ written this' = written this ++ "").
Proof.
  intros Hp Hu Hok. cbn zeta. unfold JarRevision.on_settled. rewrite Hp, Hu, Hok.
  cbn [negb]. split.
  - intros -> Hbody. destruct (res_body res); [now cbn | now cbn | contradiction].
  - intros -> body ->. now cbn.
Qed.
End JarRevisionPaths.

(** ** Assignment and spread *)

Section AssignLemmas.
Context {V : Type}.
Implicit Types (o a b c acc : list (string * V)) (k : string) (v : V).

Lemma assign_cons acc k v l : assign acc ((k, v) :: l) = assign (set k v acc) l.
Proof. reflexivity. Qed.

Lemma assign_app acc l m : assign acc (l ++ m) = assign (assign acc l) m.
Proof. unfold assign. apply fold_left_app. Qed.

Lemma assign_snoc acc l k v : assign acc (l ++ [(k, v)]) = set k v (assign acc l).
Proof. now rewrite assign_app. Qed.

Lemma in_keys_set k k' v o : In k' (keys (set k v o)) <-> k' = k \/ In k' (keys o).
Proof.
  induction o as [|[k2 v2] o IH]; cbn.
  - intuition.
  - destruct (String.eqb k k2) eqn:E; cbn.
    + apply String.eqb_eq in E. subst. intuition.
    + rewrite IH. intuition.
Qed.

Lemma in_keys_assign k acc l :
  In k (keys (assign acc l)) <-> In k (keys acc) \/ In k (keys l).
Proof.
  revert acc. induction l as [|[k1 v1] l IH]; intros acc.
  - cbn. intuition.
  - rewrite assign_cons, IH, in_keys_set. cbn. intuition.
Qed.

Lemma get_None k o : get k o = None <-> ~ In k (keys o).
Proof.
  induction o as [|[k1 v1] o IH]; cbn; [intuition|].
  destruct (String.eqb k k1) eqn:E.
  - apply String.eqb_eq in E. subst. split; [discriminate | intuition].
  - apply String.eqb_neq in E. rewrite IH. intuition congruence.
Qed.

Lemma get_Some_in k v o : get k o = Some v -> In k (keys o).
Proof.
  intros Hg. destruct (in_dec string_dec k (keys o)) as [|Hn]; [assumption|].
  apply get_None in Hn. congruence.
Qed.

Lemma set_set k v v' o : set k v (set k v' o) = set k v o.
Proof.
  induction o as [|[k1 v1] o IH]; cbn.
  - now rewrite String.eqb_refl.
  - destruct (String.eqb k k1) eqn:E; cbn; rewrite ?String.eqb_refl, ?E; congruence.
Qed.

Lemma set_comm k1 v1 k2 v2 o :
  k1 <> k2 -> In k1 (keys o) ->
  set k1 v1 (set k2 v2 o) = set k2 v2 (set k1 v1 o).
Proof.
  intros Hne.
  assert (E12 : String.eqb k1 k2 = false) by now apply String.eqb_neq.
  assert (E21 : String.eqb k2 k1 = false) by (apply String.eqb_neq; congruence).
  induction o as [|[k v] o IH]; cbn; [intuition|].
  intros Hin.
  destruct (String.eqb k2 k) eqn:E2, (String.eqb k1 k) eqn:E1.
  - apply String.eqb_eq in E1, E2. congruence.
  - apply String.eqb_eq in E2. subst k. cbn. now rewrite E12, String.eqb_refl.
  - apply String.eqb_eq in E1. subst k. cbn. now rewrite E21, String.eqb_refl.
  - cbn. rewrite E1, E2. f_equal. apply IH.
    apply String.eqb_neq in E1. intuition congruence.
Qed.

(** A property set before a run of assignments that does not mention it
    can as well be set after, provided it exists already. *)
Lemma set_assign_absent k v acc l :
  ~ In k (keys l) -> In k (keys acc) ->
  assign (set k v acc) l = set k v (assign acc l).
Proof.
  revert acc. induction l as [|[k1 v1] l IH]; intros acc Hn Hin; [reflexivity|].
  cbn in Hn. rewrite !assign_cons.
  assert (Hk : k <> k1) by intuition congruence.
  rewrite <- IH.
  - f_equal. symmetry. now apply set_comm.
  - intuition.
  - rewrite in_keys_set. now right.
Qed.

(** A property that the assignments set again need not be set before. *)
Lemma set_assign_overridden k v acc l :
  In k (keys l) -> In k (keys acc) ->
  assign (set k v acc) l = assign acc l.
Proof.
  revert acc. induction l as [|[k1 v1] l IH]; intros acc Hl Hin; [contradiction|].
  rewrite !assign_cons. destruct (string_dec k1 k) as [->|Hne].
  - now rewrite set_set.
  - rewrite <- (set_comm k v k1 v1) by congruence.
    apply IH; [cbn in Hl; intuition congruence | rewrite in_keys_set; now right].
Qed.

Lemma keys_set_in k v o : In k (keys o) -> keys (set k v o) = keys o.
Proof.
  unfold keys. induction o as [|[k1 v1] o IH]; cbn; [contradiction|].
  destruct (String.eqb k k1) eqn:E; cbn.
  - apply String.eqb_eq in E. now subst.
  - apply String.eqb_neq in E. intros [->|Hin]; [congruence|]. now rewrite IH.
Qed.

Lemma set_absent k v o : ~ In k (keys o) -> set k v o = (o ++ [(k, v)])%list.
Proof.
  induction o as [|[k1 v1] o IH]; cbn; [reflexivity|].
  intros Hn. destruct (String.eqb k k1) eqn:E.
  - apply String.eqb_eq in E. intuition congruence.
  - rewrite IH; intuition.
Qed.

Lemma NoDup_keys_set k v o : NoDup (keys o) -> NoDup (keys (set k v o)).
Proof.
  intros Hnd. destruct (in_dec string_dec k (keys o)) as [Hin|Hn].
  - now rewrite keys_set_in.
  - rewrite set_absent by assumption. unfold keys. rewrite map_app. cbn.
    apply NoDup_app; repeat split; try assumption.
    + intros x Hx Hx'. apply list_elem_of_In in Hx, Hx'. cbn in Hx'.
      destruct Hx' as [<-|[]]. contradiction.
    + apply NoDup_singleton.
Qed.

Lemma NoDup_keys_assign acc l : NoDup (keys acc) -> NoDup (keys (assign acc l)).
Proof.
  revert acc. induction l as [|[k v] l IH]; intros acc Hnd; [assumption|].
  rewrite assign_cons. apply IH. now apply NoDup_keys_set.
Qed.

(** Assigning a modified source, for a source without repeated keys. *)
Lemma assign_set_src k v acc l :
  NoDup (keys l) -> assign acc (set k v l) = set k v (assign acc l).
Proof.
  revert acc. induction l as [|[k1 v1] l IH]; intros acc Hnd; [reflexivity|].
  cbn [set]. apply NoDup_cons in Hnd as [Hn Hnd].
  destruct (String.eqb k k1) eqn:E.
  - apply String.eqb_eq in E. subst k1. rewrite !assign_cons.
    rewrite <- (set_assign_absent k v).
    + now rewrite set_set.
    + now rewrite <- list_elem_of_In.
    + rewrite in_keys_set. now left.
  - rewrite !assign_cons. now apply IH.
Qed.

(** Assigning a normalised source is assigning the source. *)
Lemma assign_normalised acc m : assign acc (assign [] m) = assign acc m.
Proof.
  induction m as [|[k v] m IH] using rev_ind; [reflexivity|].
  rewrite !assign_snoc, assign_set_src, IH; [reflexivity|].
  apply NoDup_keys_assign. constructor.
Qed.

Lemma assign_nil_id o : NoDup (keys o) -> assign [] o = o.
Proof.
  induction o as [|[k v] o IH] using rev_ind; [reflexivity|].
  intros Hnd. unfold keys in Hnd. rewrite map_app in Hnd. cbn in Hnd.
  apply NoDup_app in Hnd as (Hnd & Hk & _).
  rewrite assign_snoc, IH by assumption.
  apply set_absent. intros Hin. apply (Hk k).
  - now apply list_elem_of_In.
  - now left.
Qed.

Lemma spread2_assoc a b c : spread2 (spread2 a b) c = spread2 a (spread2 b c).
Proof.
  unfold spread2.
  rewrite <- (assign_app [] a b), (assign_normalised [] (a ++ b)).
  rewrite <- (assign_app [] b c), (assign_normalised _ (b ++ c)).
  now rewrite !assign_app.
Qed.

Lemma get_assign k acc l :
  NoDup (keys l) ->
  get k (assign acc l) = match get k l with Some v => Some v | None => get k acc end.
Proof.
  revert acc. induction l as [|[k1 v1] l IH]; intros acc Hnd; [reflexivity|].
  apply NoDup_cons in Hnd as [Hn Hnd]. cbn [fst] in Hn.
  rewrite assign_cons, IH by assumption. cbn.
  destruct (String.eqb k k1) eqn:E.
  - apply String.eqb_eq in E. subst k1.
    rewrite list_elem_of_In in Hn. apply get_None in Hn. cbn [fst snd].
    rewrite Hn. apply get_set_eq.
  - apply String.eqb_neq in E. cbn [fst snd]. destruct (get k l); [reflexivity|].
    apply get_set_ne. congruence.
Qed.
End AssignLemmas.

(** ** Chained defaults (C6) *)

Section DefaultsChain.

Lemma unique_keys_NoDup (o : obj) : unique_keys o = true <-> NoDup (keys o).
Proof.
  induction o as [|[k v] o IH]; cbn.
  - split; [constructor | reflexivity].
  - rewrite andb_true_iff, negb_true_iff, IH, NoDup_cons, list_elem_of_In.
    assert (Hex : existsb (fun kv => String.eqb k kv.1) o = false <-> ~ In k (map fst o)).
    { rewrite <- not_true_iff_false, existsb_exists. split.
      - intros Hn Hin. apply in_map_iff in Hin as ([k' v'] & <- & Hin).
        apply Hn. exists (k', v'). split; [assumption | apply String.eqb_refl].
      - intros Hn ([k' v'] & Hin & E). apply String.eqb_eq in E. cbn in E. subst k'.
        apply Hn. apply in_map_iff. now exists (k, v'). }
    now rewrite Hex.
Qed.

Lemma spread2_NoDup (a b : obj) : NoDup (keys a) -> spread2 a b = assign a b.
Proof. intros Hnd. unfold spread2. now rewrite assign_nil_id. Qed.

Lemma assign_assign (c x w : obj) :
  NoDup (keys x) -> assign c (assign x w) = assign (assign c x) w.
Proof.
  intros Hnd. rewrite <- (assign_nil_id x) at 1 by assumption.
  now rewrite <- assign_app, assign_normalised, assign_app.
Qed.

Lemma prop_assign (k : string) (acc l : obj) :
  NoDup (keys l) ->
  prop k (assign acc l) = match get k l with Some v => v | None => prop k acc end.
Proof. intros Hnd. unfold prop. rewrite get_assign by assumption. now destruct (get k l). Qed.

Lemma merge_defaults_NoDup (c x : obj) :
  NoDup (keys c) -> NoDup (keys (merge_defaults c x)).
Proof.
  intros Hc. unfold merge_defaults. rewrite (spread2_NoDup c x) by assumption.
  destruct (_ && _); [apply NoDup_keys_set|]; now apply NoDup_keys_assign.
Qed.

Lemma merge_spec_NoDup (x y : obj) :
  NoDup (keys x) -> NoDup (keys (merge_spec x y)).
Proof.
  intros Hx. unfold merge_spec. rewrite (spread2_NoDup x y) by assumption.
  repeat case_match; try apply NoDup_keys_set; now apply NoDup_keys_assign.
Qed.

Lemma merge_defaults_assoc (c x y : obj) :
  NoDup (keys c) -> NoDup (keys x) -> NoDup (keys y) ->
  headers_mapping x = true -> headers_mapping y = true ->
  merge_defaults (merge_defaults c x) y = merge_defaults c (merge_spec x y).
Proof.
  intros Hc Hx Hy Hmx Hmy.
  pose proof (merge_defaults_NoDup c x Hc) as Hd1.
  unfold merge_defaults at 1 3.
  rewrite (spread2_NoDup (merge_defaults c x) y) by assumption.
  rewrite (spread2_NoDup c (merge_spec x y)) by assumption. clear Hd1.
  unfold merge_defaults, merge_spec, headers_mapping in *.
  rewrite (spread2_NoDup c x), (spread2_NoDup x y) by assumption.
  destruct (get "headers" x) as [hx|] eqn:Ex; [destruct hx; try discriminate|];
  (destruct (get "headers" y) as [hy|] eqn:Ey; [destruct hy; try discriminate|]).
  - (* both *)
    rename props into ox, props0 into oy.
    assert (Px : prop "headers" x = VObj ox) by (unfold prop; now rewrite Ex).
    assert (Py : prop "headers" y = VObj oy) by (unfold prop; now rewrite Ey).
    assert (Ix : In "headers" (keys x)) by (eapply get_Some_in; eauto).
    assert (Iy : In "headers" (keys y)) by (eapply get_Some_in; eauto).
    rewrite Px, Py. cbn [truthy own_props]. rewrite !andb_true_r.
    rewrite (assign_set_src _ _ c) by now apply NoDup_keys_assign.
    rewrite assign_assign by assumption.
    assert (Pz : prop "headers" (set "headers" (VObj (spread2 ox oy)) (assign x y))
                 = VObj (spread2 ox oy)) by (unfold prop; now rewrite get_set_eq).
    rewrite Pz. cbn [truthy own_props]. rewrite andb_true_r.
    destruct (truthy (prop "headers" c)) eqn:Tc.
    + assert (Ic : In "headers" (keys (assign c x))) by (apply in_keys_assign; now right).
      rewrite set_assign_overridden by assumption.
      assert (Pd : prop "headers" (set "headers"
                     (VObj (spread2 (own_props (prop "headers" c)) ox)) (assign c x))
                   = VObj (spread2 (own_props (prop "headers" c)) ox))
        by (unfold prop; now rewrite get_set_eq).
      rewrite Pd. cbn [truthy own_props andb].
      now rewrite set_set, spread2_assoc.
    + rewrite prop_assign, Ex by assumption. now cbn.
  - (* x only *)
    rename props into ox.
    assert (Px : prop "headers" x = VObj ox) by (unfold prop; now rewrite Ex).
    assert (Py : prop "headers" y = VUndefined) by (unfold prop; now rewrite Ey).
    assert (Ix : In "headers" (keys x)) by (eapply get_Some_in; eauto).
    assert (Iy : ~ In "headers" (keys y)) by now apply get_None.
    rewrite Px, Py. cbn [truthy own_props]. rewrite !andb_false_r, andb_true_r.
    rewrite assign_assign by assumption.
    rewrite prop_assign, Ey, Px by assumption. cbn [truthy own_props]. rewrite andb_true_r.
    destruct (truthy (prop "headers" c)) eqn:Tc; [|reflexivity].
    apply set_assign_absent; [assumption|]. apply in_keys_assign. now right.
  - (* y only *)
    rename props into oy.
    assert (Px : prop "headers" x = VUndefined) by (unfold prop; now rewrite Ex).
    assert (Py : prop "headers" y = VObj oy) by (unfold prop; now rewrite Ey).
    rewrite Px, Py. cbn [truthy own_props]. rewrite !andb_false_r, !andb_true_r.
    rewrite assign_assign by assumption.
    rewrite !prop_assign, Ex, Ey by assumption. cbn [truthy own_props].
    now rewrite andb_true_r.
  - (* neither *)
    assert (Px : prop "headers" x = VUndefined) by (unfold prop; now rewrite Ex).
    assert (Py : prop "headers" y = VUndefined) by (unfold prop; now rewrite Ey).
    rewrite Px, Py. cbn [truthy]. rewrite !andb_false_r.
    rewrite assign_assign by assumption.
    rewrite prop_assign, Ey, Px by assumption. cbn [truthy]. now rewrite !andb_false_r.
Qed.
End DefaultsChain.

Section JsonClone.

Lemma value_nested_ind (P : value -> Prop) :
  P VUndefined -> P VNull -> (forall b, P (VBool b)) -> (forall n, P (VNum n)) ->
  (forall s, P (VStr s)) -> (forall b, P (VBuffer b)) ->
  (forall l, Forall P l -> P (VArr l)) ->
  (forall o, Forall (fun kv => P kv.2) o -> P (VObj o)) ->
  forall v, P v.
Proof.
  intros Hu Hn Hb Hz Hs Hbuf Ha Ho. fix IH 1.
  intros [ | | b | n | s | b | l | o].
  - exact Hu.
  - exact Hn.
  - apply Hb.
  - apply Hz.
  - apply Hs.
  - apply Hbuf.
  - apply Ha. induction l as [|x l IHl]; constructor; [apply IH | exact IHl].
  - apply Ho. induction o as [|[k x] o IHo]; constructor; [apply IH | exact IHo].
Qed.

Lemma plain_obj_Forall (o : obj) :
  plain_obj o <-> Forall (fun kv => json_plain kv.2 = true) o.
Proof.
  unfold plain_obj. cbn. induction o as [|kv o IH]; cbn.
  - split; [constructor | reflexivity].
  - rewrite andb_true_iff, IH. split.
    + intros [H1 H2]. now constructor.
    + intros Hall. apply Forall_cons in Hall. exact Hall.
Qed.

Lemma json_clone_plain (v : value) : json_plain v = true -> json_clone v = Some v.
Proof.
  induction v as [ | | b | n | s | b | l IHl | o IHo] using value_nested_ind;
    cbn; intros Hp; try reflexivity; try discriminate.
  - do 2 f_equal. induction IHl as [|x l Hx _ IH]; [reflexivity|].
    cbn in Hp. apply andb_true_iff in Hp as [Hp1 Hp2]. cbn.
    now rewrite (Hx Hp1), (IH Hp2).
  - do 2 f_equal. induction IHo as [|[k x] o Hx _ IH]; [reflexivity|].
    cbn in Hp. apply andb_true_iff in Hp as [Hp1 Hp2]. cbn in Hx |- *.
    now rewrite (Hx Hp1), (IH Hp2).
Qed.

Lemma plain_bytes (b : string) : forallb json_plain (bytes_of b) = true.
Proof. unfold bytes_of. induction (list_ascii_of_string b); cbn; auto. Qed.

Lemma json_clone_is_plain (v v' : value) :
  json_clone v = Some v' -> json_plain v' = true.
Proof.
  revert v'.
  induction v as [ | | b | n | s | b | l IHl | o IHo] using value_nested_ind;
    cbn; intros v' Hc; try discriminate; injection Hc as <-; try reflexivity.
  - cbn. now rewrite plain_bytes.
  - cbn. induction IHl as [|x l Hx _ IH]; [reflexivity|]. cbn.
    rewrite IH, andb_true_r.
    destruct (json_clone x) as [x'|]; [now apply Hx | reflexivity].
  - cbn. induction IHo as [|[k x] o Hx _ IH]; [reflexivity|]. cbn in Hx |- *.
    destruct (json_clone x) as [x'|]; [|exact IH]. cbn.
    now rewrite IH, (Hx x').
Qed.

Lemma json_clone_obj_plain (o : obj) : plain_obj (json_clone_obj o).
Proof.
  unfold plain_obj, json_clone_obj.
  destruct (json_clone (VObj o)) as [[ | | | | | | |o']|] eqn:E; try reflexivity.
  now apply json_clone_is_plain in E.
Qed.

Lemma json_clone_obj_id (o : obj) : plain_obj o -> json_clone_obj o = o.
Proof. intros Hp. unfold json_clone_obj. now rewrite json_clone_plain. Qed.

Lemma json_clone_obj_NoDup (o : obj) :
  NoDup (keys o) -> NoDup (keys (json_clone_obj o)).
Proof.
  unfold json_clone_obj. cbn. induction o as [|[k v] o IH]; [auto|].
  intros Hnd. apply NoDup_cons in Hnd as [Hn Hnd]. cbn.
  assert (Hsub : forall k', In k' (keys (omap (fun kv => match json_clone kv.2 with
                                                        | Some v' => Some (kv.1, v')
                                                        | None => None
                                                        end) o)) -> In k' (keys o)).
  { clear. induction o as [|[k v] o IH]; cbn; [auto|].
    intros k'. destruct (json_clone v); cbn; intuition. }
  destruct (json_clone v); [|now apply IH].
  cbn. apply NoDup_cons. split; [|now apply IH].
  rewrite list_elem_of_In. intros Hin. apply Hsub in Hin.
  now apply list_elem_of_In in Hin.
Qed.

Lemma plain_set (k : string) (v : value) (o : obj) :
  json_plain v = true -> plain_obj o -> plain_obj (set k v o).
Proof.
  rewrite !plain_obj_Forall. intros Hv Ho.
  induction Ho as [|[k1 v1] o H1 Ho IH]; cbn.
  - now repeat constructor.
  - destruct (String.eqb k k1); constructor; auto.
Qed.

Lemma plain_assign (acc l : obj) :
  plain_obj acc -> plain_obj l -> plain_obj (assign acc l).
Proof.
  intros Ha Hl. rewrite plain_obj_Forall in Hl. revert acc Ha.
  induction Hl as [|[k v] l Hv Hl IH]; intros acc Ha; [assumption|].
  rewrite assign_cons. apply IH. now apply plain_set.
Qed.

Lemma plain_nil : plain_obj [].
Proof. reflexivity. Qed.

Lemma plain_spread2 (a b : obj) : plain_obj a -> plain_obj b -> plain_obj (spread2 a b).
Proof. intros Ha Hb. unfold spread2. auto using plain_assign, plain_nil. Qed.

Lemma plain_index_from {A} (f : A -> value) (l : list A) (i : nat) :
  (forall x, json_plain (f x) = true) ->
  plain_obj (index_from i (map f l)).
Proof.
  intros Hf. rewrite plain_obj_Forall. revert i.
  induction l as [|x l IH]; intros i; cbn; constructor; [apply Hf | apply IH].
Qed.

Lemma plain_own_props (v : value) : json_plain v = true -> plain_obj (own_props v).
Proof.
  destruct v; cbn [own_props]; intros Hp; try apply plain_nil; try discriminate.
  - now apply plain_index_from.
  - rewrite plain_obj_Forall. cbn in Hp. generalize 0%nat.
    induction items as [|x l IH]; intros i; cbn; constructor;
      cbn in Hp; apply andb_true_iff in Hp as [H1 H2]; auto.
  - exact Hp.
Qed.

Lemma plain_prop (k : string) (o : obj) : plain_obj o -> truthy (prop k o) = true ->
  json_plain (prop k o) = true.
Proof.
  rewrite plain_obj_Forall. unfold prop. intros Ho.
  induction Ho as [|[k1 v1] o H1 Ho IH]; cbn; [discriminate|].
  destruct (String.eqb k k1); auto.
Qed.

Lemma plain_merge_defaults (c x : obj) :
  plain_obj c -> plain_obj x -> plain_obj (merge_defaults c x).
Proof.
  intros Hc Hx. unfold merge_defaults.
  destruct (truthy (prop "headers" c)) eqn:Tc; [|now apply plain_spread2].
  destruct (truthy (prop "headers" x)) eqn:Tx; [|now apply plain_spread2].
  cbn [andb]. apply plain_set; [|now apply plain_spread2].
  apply plain_spread2; apply plain_own_props; now apply plain_prop.
Qed.

Lemma defaults_obj (self : instance) (y : obj) :
  defaults self (VObj y)
  = Normal {| defaultOptions := merge_defaults (json_clone_obj (defaultOptions self)) y |}.
Proof.
  unfold defaults, merge_defaults. cbn [member own_props bind].
  now destruct (truthy (prop "headers" (json_clone_obj (defaultOptions self)))),
               (truthy (prop "headers" y)).
Qed.

(** C6, as amended.  For an instance whose defaults are an object, and
    partial option records [x] and [y] that are objects, where [x] holds
    plain JSON data only (strings, integers, booleans, [null], arrays and
    objects of these) and the [headers] of [x] and of [y], when present,
    are mappings: [.defaults(x).defaults(y)] gives the instance that
    [.defaults(merge(x, y))] gives, [merge] letting [y] win key by key and
    merging the two header maps key-wise. *)
Theorem defaults_chain (self : instance) (x y : obj) :
  unique_keys (defaultOptions self) = true ->
  unique_keys x = true ->
  unique_keys y = true ->
  json_plain (VObj x) = true ->
  headers_mapping x = true ->
  headers_mapping y = true ->
  bind (defaults self (VObj x)) (fun r => defaults r (VObj y))
  = defaults self (VObj (merge_spec x y)).
Proof.
  rewrite !unique_keys_NoDup. intros Hd Hx Hy Hp Hmx Hmy.
  rewrite !defaults_obj. cbn [bind]. rewrite defaults_obj. cbn [defaultOptions].
  do 2 f_equal.
  rewrite json_clone_obj_id
    by (apply plain_merge_defaults; [apply json_clone_obj_plain | exact Hp]).
  apply merge_defaults_assoc; auto using json_clone_obj_NoDup.
Qed.

(** C6, counterexample.  A default body of bytes: the second [defaults]
    passes the current defaults through JSON, which turns the Buffer into
    the plain object of its [toJSON]; the single call keeps the Buffer. *)
Lemma defaults_chain_loses_buffer :
  let x := [("method", VStr "POST"); ("body", VBuffer "hi")] in
  let y := [("json", VBool true)] in
  bind (defaults request (VObj x)) (fun r => defaults r (VObj y))
  = Normal {| defaultOptions :=
                [("method", VStr "POST");
                 ("body", VObj [("type", VStr "Buffer");
                                ("data", VArr [VNum 104; VNum 105])]);
                 ("json", VBool true)] |}
  /\ defaults request (VObj (merge_spec x y))
     = Normal {| defaultOptions :=
                   [("method", VStr "POST"); ("body", VBuffer "hi");
                    ("json", VBool true)] |}
  /\ bind (defaults request (VObj x)) (fun r => defaults r (VObj y))
     <> defaults request (VObj (merge_spec x y)).
Proof. cbn zeta. split; [reflexivity|]. split; [reflexivity|]. discriminate. Qed.

(** A [headers] property that is not a mapping separates the two as well:
    after [.defaults({headers: null})] the instance has no header map left
    to merge into, while the single call merges into the original one. *)
Lemma defaults_chain_null_headers :
  let self := {| defaultOptions := [("headers", VObj [("A", VStr "1")])] |} in
  let x := [("headers", VNull)] in
  let y := [("headers", VObj [("B", VStr "2")])] in
  bind (defaults self (VObj x)) (fun r => defaults r (VObj y))
  = Normal {| defaultOptions := [("headers", VObj [("B", VStr "2")])] |}
  /\ defaults self (VObj (merge_spec x y))
     = Normal {| defaultOptions :=
                   [("headers", VObj [("A", VStr "1"); ("B", VStr "2")])] |}.
Proof. cbn zeta. split; reflexivity. Qed.
End JsonClone.

(** ** No mutation of the caller's objects (C10) *)

Module HeapFacts.
Import Heap.

Section Frame.
Context `{Platform}.
Variable h0 : heap.

Lemma triple_ret {A} (P : heap -> Prop) (a : A) (Q : A -> heap -> Prop) :
  (forall h, P h -> Q a h) -> triple h0 P (ret a) Q.
Proof. intros HQ h Hsub HP. cbn. auto. Qed.

Lemma triple_bind {A B} (P : heap -> Prop) (m : M A) (Q : A -> heap -> Prop)
  (k : A -> M B) (R : B -> heap -> Prop) :
  triple h0 P m Q -> (forall a, triple h0 (Q a) (k a) R) ->
  triple h0 P (mbind m k) R.
Proof.
  intros Hm Hk h Hsub HP. unfold mbind.
  destruct (Hm h Hsub HP) as [Hs HQ]. destruct (m h) as [a h1]. cbn in *.
  now apply Hk.
Qed.

Lemma triple_weaken {A} (P P' : heap -> Prop) (m : M A) (Q Q' : A -> heap -> Prop) :
  triple h0 P' m Q' -> (forall h, P h -> P' h) -> (forall a h, Q' a h -> Q a h) ->
  triple h0 P m Q.
Proof. intros Hm HP HQ h Hsub Hp. destruct (Hm h Hsub (HP h Hp)). auto. Qed.

Lemma triple_read (P : heap -> Prop) (l : loc) :
  triple h0 P (read l) (fun _ => P).
Proof. intros h Hsub HP. cbn. auto. Qed.

Lemma triple_snapshot (P : heap -> Prop) (v : hval) :
  triple h0 P (snapshot v) (fun _ => P).
Proof. intros h Hsub HP. cbn. auto. Qed.

Lemma triple_hown_props (P : heap -> Prop) (v : hval) :
  triple h0 P (hown_props v) (fun _ => P).
Proof. destruct v; try apply triple_ret; auto. apply triple_read. Qed.

(** A new object lies outside the initial store. *)
Lemma triple_alloc (P : heap -> Prop) (o : hobj) (Q : loc -> heap -> Prop) :
  (forall h l, P h -> h !! l = None -> h0 !! l = None -> Q l (<[l := o]> h)) ->
  triple h0 P (alloc o) Q.
Proof.
  intros HQ h Hsub HP. unfold alloc. cbn.
  assert (Hf : h !! fresh (dom h) = None).
  { apply not_elem_of_dom. apply is_fresh. }
  split.
  - etransitivity; [exact Hsub|]. now apply insert_subseteq.
  - apply HQ; auto. eapply lookup_weaken_None; eauto.
Qed.

(** A write to an object outside the initial store leaves the initial
    store as it was. *)
Lemma triple_write (P : heap -> Prop) (l : loc) (k : string) (v : hval)
  (Q : heap -> Prop) :
  h0 !! l = None ->
  (forall h, P h -> Q (alter (set k v) l h)) ->
  triple h0 P (write l k v) (fun _ => Q).
Proof.
  intros Hl HQ h Hsub HP. unfold write. cbn. split; [|auto].
  apply map_subseteq_spec. intros l' o Hl'.
  rewrite lookup_alter_ne by congruence.
  eapply lookup_weaken; eauto.
Qed.

Lemma building_alloc fo hl h l o :
  building h0 fo hl h -> h !! l = None -> building h0 fo hl (<[l := o]> h).
Proof.
  intros (H1 & H2 & H3 & o' & Ho & Hnd & Hp) Hl. do 3 (split; [assumption|]).
  exists o'. rewrite lookup_insert_ne by congruence. auto.
Qed.

Lemma building_write_headers fo hl h k v :
  building h0 fo hl h -> building h0 fo hl (alter (set k v) hl h).
Proof.
  intros (H1 & H2 & H3 & o' & Ho & Hnd & Hp). do 3 (split; [assumption|]).
  exists o'. rewrite lookup_alter_ne by congruence. auto.
Qed.

Lemma building_write_options fo hl h k v :
  k <> "headers" -> building h0 fo hl h -> building h0 fo hl (alter (set k v) fo h).
Proof.
  intros Hk (H1 & H2 & H3 & o' & Ho & Hnd & Hp). do 3 (split; [assumption|]).
  exists (set k v o'). rewrite lookup_alter_eq, Ho. cbn. split; [reflexivity|]. split.
  - now apply NoDup_keys_set.
  - unfold hprop in *. now rewrite get_set_ne.
Qed.

Lemma triple_write_headers fo hl k v :
  triple h0 (building h0 fo hl) (write hl k v) (fun _ => building h0 fo hl).
Proof.
  intros h Hsub HP. pose proof HP as (H1 & H2 & _).
  apply (triple_write (building h0 fo hl)); auto using building_write_headers.
Qed.

Lemma triple_write_options fo hl k v :
  k <> "headers" ->
  triple h0 (building h0 fo hl) (write fo k v) (fun _ => building h0 fo hl).
Proof.
  intros Hk h Hsub HP. pose proof HP as (H1 & H2 & _).
  apply (triple_write (building h0 fo hl)); auto using building_write_options.
Qed.

Lemma triple_alloc_building fo hl o :
  triple h0 (building h0 fo hl) (alloc o)
    (fun l h => h0 !! l = None /\ building h0 fo hl h).
Proof. apply triple_alloc. auto using building_alloc. Qed.

Lemma triple_pure {A} (phi : Prop) (P : heap -> Prop) (m : M A)
  (Q : A -> heap -> Prop) :
  (phi -> triple h0 P m Q) -> triple h0 (fun h => phi /\ P h) m Q.
Proof. intros Hm h Hsub [Hphi HP]. now apply Hm. Qed.

Lemma triple_assume {A} (phi : Prop) (P : heap -> Prop) (m : M A)
  (Q : A -> heap -> Prop) :
  (forall h, P h -> phi) -> (phi -> triple h0 P m Q) -> triple h0 P m Q.
Proof. intros Hphi Hm h Hsub HP. apply Hm; eauto. Qed.

Lemma triple_translate_body (options : hobj) (fo hl : loc) :
  triple h0 (building h0 fo hl) (Heap.translate_body options fo hl)
    (fun _ => building h0 fo hl).
Proof.
  unfold Heap.translate_body.
  destruct (_ && _).
  - eapply triple_bind; [apply triple_snapshot|]; intros body.
    eapply triple_bind; [apply triple_write_options; discriminate|]; intros [].
    eapply triple_bind; [apply triple_write_headers|]; intros [].
    eapply triple_bind; [apply triple_read|]; intros hs.
    destruct (htruthy _); [apply triple_ret; auto|].
    eapply triple_bind; [apply triple_write_headers|]; intros [].
    apply triple_ret; auto.
  - destruct (htruthy (hprop "form" options)).
    + eapply triple_bind; [apply triple_snapshot|]; intros form.
      destruct (URLSearchParams_new form); [|apply triple_ret; auto].
      eapply triple_bind; [apply triple_write_options; discriminate|]; intros [].
      eapply triple_bind; [apply triple_write_headers|]; intros [].
      apply triple_ret; auto.
    + destruct (htruthy _); [|apply triple_ret; auto].
      eapply triple_bind; [apply triple_write_options; discriminate|]; intros [].
      apply triple_ret; auto.
Qed.

Lemma get_filter_ne {V} (k k' : string) (o : list (string * V)) :
  k <> k' -> get k (filter (fun kv => kv.1 <> k') o) = get k o.
Proof.
  intros Hne. induction o as [|[k1 v1] o IH]; [reflexivity|].
  rewrite filter_cons. cbn [fst]. destruct (decide (k1 <> k')) as [Hk|Hk]; cbn.
  - now rewrite IH.
  - apply dec_stable in Hk. subst k1.
    destruct (String.eqb k k') eqn:E; [apply String.eqb_eq in E; congruence|].
    exact IH.
Qed.

Lemma triple_finish (fo hl : loc) (url : hval) :
  triple h0 (building h0 fo hl)
    (fo' <~ read fo ;;
     result <~ alloc (assign [("url", url)] fo') ;;
     r <~ read result ;;
     rest <~ alloc (filter (fun kv => kv.1 <> "url") r) ;;
     ret (Normal (url, rest)))
    (fresh_request h0).
Proof.
  intros h Hsub (H1 & H2 & H3 & o & Ho & Hnd & Hp).
  cbv beta iota zeta delta [mbind read alloc ret]. cbn [fst snd]. rewrite Ho.
  change (default [] (Some o)) with o.
  set (l1 := fresh (dom h)).
  set (h1 := <[l1 := assign [("url", url)] o]> h).
  set (l2 := fresh (dom h1)).
  assert (Hl1 : h !! l1 = None) by (apply not_elem_of_dom, is_fresh).
  assert (Hl2 : h1 !! l2 = None) by (apply not_elem_of_dom, is_fresh).
  assert (Hs1 : h ⊆ h1) by now apply insert_subseteq.
  assert (Hr : h1 !! l1 = Some (assign [("url", url)] o)) by apply lookup_insert_eq.
  rewrite Hr. change (default [] (Some ?x)) with x.
  split.
  - etransitivity; [exact Hsub|]. etransitivity; [exact Hs1|].
    now apply insert_subseteq.
  - split.
    + eapply lookup_weaken_None; [exact Hl2|].
      etransitivity; [exact Hsub | exact Hs1].
    + exists hl. split; [|assumption].
      unfold transport_headers. rewrite lookup_insert_eq.
      assert (Hg : get "headers" o = Some (HRef hl)).
      { unfold hprop in Hp. destruct (get "headers" o); cbn in Hp; congruence. }
      unfold hprop. rewrite get_filter_ne by discriminate.
      rewrite get_assign by assumption. now rewrite Hg.
Qed.

Lemma triple_translateOptions (options : loc) :
  triple h0 (fun _ => True) (Heap.translateOptions options) (fresh_request h0).
Proof.
  unfold Heap.translateOptions.
  eapply triple_bind; [apply triple_read|]; intros o.
  eapply triple_bind; [apply triple_snapshot|]; intros opts.
  destruct (method_of _) as [method|]; [|now apply triple_ret].
  eapply triple_bind with (Q := fun _ _ => True).
  { destruct (htruthy _); [now apply triple_ret|].
    eapply triple_bind; [apply triple_alloc with (Q := fun _ _ => True); auto|].
    intros l. now apply triple_ret. }
  intros src.
  eapply triple_bind; [apply triple_hown_props|]; intros ps.
  eapply triple_bind.
  { apply triple_alloc with (Q := fun hl h => h0 !! hl = None /\ is_Some (h !! hl)).
    intros h l _ _ Hl. split; [assumption|]. rewrite lookup_insert_eq. eauto. }
  intros hl.
  eapply triple_bind.
  { apply triple_alloc with (Q := fun fo h => building h0 fo hl h).
    intros h fo [Hhl [x Hx]] Hfo Hfo0.
    assert (fo <> hl) by congruence.
    do 3 (split; [assumption|]). eexists. rewrite lookup_insert_eq.
    split; [reflexivity|]. split; [|reflexivity].
    cbn. repeat constructor; rewrite ?list_elem_of_In; cbn; intuition congruence. }
  intros fo.
  eapply triple_bind with (Q := fun _ => building h0 fo hl).
  { destruct (htruthy _); [|now apply triple_ret].
    eapply triple_bind; [apply triple_alloc_building|]. intros signal.
    apply triple_pure. intros _. apply triple_write_options. discriminate. }
  intros [].
  destruct (negb _); [now apply triple_ret|].
  eapply triple_bind with (Q := fun _ => building h0 fo hl).
  { destruct (htruthy _); [|now apply triple_ret]. apply triple_write_headers. }
  intros [].
  eapply triple_bind; [apply triple_translate_body|]. intros [[]|e];
    [|now apply triple_ret].
  eapply triple_bind; [apply triple_snapshot|]; intros u.
  destruct (translate_qs _ _) as [u'|]; [|now apply triple_ret].
  apply triple_finish.
Qed.

Lemma triple_opts_of (verb : bool) (uri options : harg) :
  triple h0 (fun _ => True) (Heap.opts_of verb uri options)
    (fun opts _ => h0 !! opts = None).
Proof.
  unfold Heap.opts_of.
  eapply triple_bind; [apply triple_alloc with (Q := fun l _ => h0 !! l = None); auto|].
  intros opts.
  eapply triple_bind with (Q := fun l _ => h0 !! l = None).
  { destruct uri as [[ | | | | s | u]|];
      try (destruct verb; [apply triple_alloc; auto | now apply triple_ret]).
    - apply (triple_assume (h0 !! opts = None)); [auto|]. intros Hopts.
      eapply triple_bind; [now apply triple_write with (Q := fun _ => True)|].
      intros []. now apply triple_ret.
    - eapply triple_bind; [apply triple_read|]. intros o.
      apply triple_alloc; auto. }
  clear opts. intros opts.
  destruct options as [[ | | | | s | p]|]; try now apply triple_ret.
  eapply triple_bind; [apply triple_read|]. intros a.
  eapply triple_bind; [apply triple_read|]. intros b.
  apply triple_alloc; auto.
Qed.

Lemma triple_mainRequest (defaultOptions : loc) (uri options callback : harg) :
  triple h0 (fun _ => True) (Heap.mainRequest defaultOptions uri options callback)
    (fresh_outcome h0).
Proof.
  unfold Heap.mainRequest.
  eapply triple_bind with (Q := fun _ _ => True).
  { eapply triple_weaken; [apply triple_opts_of | auto | auto]. }
  intros opts.
  eapply triple_bind; [apply triple_read|]. intros d.
  eapply triple_bind; [apply triple_read|]. intros o.
  eapply triple_bind; [apply triple_alloc with (Q := fun _ _ => True); auto|].
  intros finalOptions.
  destruct (Heap.callback_of options callback) as [v|f].
  - eapply triple_bind; [apply triple_alloc with (Q := fun l _ => h0 !! l = None); auto|].
    intros this. now apply triple_ret.
  - eapply triple_bind; [apply triple_translateOptions|].
    intros [[url fo]|e]; now apply triple_ret.
Qed.

Lemma triple_verb (defaultOptions : loc) (method : string)
  (uri options callback : harg) :
  triple h0 (fun _ => True) (Heap.verb defaultOptions method uri options callback)
    (fresh_outcome h0).
Proof.
  unfold Heap.verb.
  eapply triple_bind; [apply triple_opts_of|]. intros opts.
  apply (triple_assume (h0 !! opts = None)); [auto|]. intros Hopts.
  eapply triple_bind; [now apply triple_write with (Q := fun _ => True)|].
  intros []. apply triple_mainRequest.
Qed.

Lemma triple_init (this : loc) :
  triple h0 (fun _ => True) (Heap._init this) (fresh_request h0).
Proof.
  unfold Heap._init.
  eapply triple_bind; [apply triple_read|]. intros t.
  destruct (hprop "_options" t); try now apply triple_ret.
  apply triple_translateOptions.
Qed.
End Frame.

Section NoMutation.
Context `{Platform}.

(** C10.  A call of the entry point or of a verb method, started in any
    store, ends in a store where every object that existed before (the
    caller's [uri] and [options] objects, their header maps and bodies,
    the instance's [defaultOptions]) has the properties it had: the merges
    and the method override write only to objects created during the call.
    The request handed to the transport, and the headers object it refers
    to, are objects created during the call.  The same holds of [_init],
    which translates the options of a call without callback. *)
Theorem calls_leave_existing_objects_unchanged (h : heap) (defaultOptions : loc)
  (method : string) (uri options callback : harg) :
  (let '(r, h') := Heap.mainRequest defaultOptions uri options callback h in
   (forall l o, h !! l = Some o -> h' !! l = Some o) /\ fresh_outcome h r h')
  /\ (let '(r, h') := Heap.verb defaultOptions method uri options callback h in
      (forall l o, h !! l = Some o -> h' !! l = Some o) /\ fresh_outcome h r h')
  /\ (forall this,
        let '(r, h') := Heap._init this h in
        (forall l o, h !! l = Some o -> h' !! l = Some o) /\ fresh_request h r h').
Proof.
  split; [|split].
  - pose proof (triple_mainRequest h defaultOptions uri options callback h
                  (reflexivity h) I) as [Hs Hq].
    destruct (Heap.mainRequest _ _ _ _ h) as [r h']. cbn in *. split; [|exact Hq].
    now apply map_subseteq_spec.
  - pose proof (triple_verb h defaultOptions method uri options callback h
                  (reflexivity h) I) as [Hs Hq].
    destruct (Heap.verb _ _ _ _ _ h) as [r h']. cbn in *. split; [|exact Hq].
    now apply map_subseteq_spec.
  - intros this.
    pose proof (triple_init h this h (reflexivity h) I) as [Hs Hq].
    destruct (Heap._init this h) as [r h']. cbn in *. split; [|exact Hq].
    now apply map_subseteq_spec.
Qed.
End NoMutation.

(** A run on a concrete store.  The instance defaults are the object 0
    (with the header map 1); the caller passes the options object 2, whose
    header map is the object 3 and whose body is the object 4.  After
    [post(options, callback)], the objects 0 to 4 are as they were; the
    transport receives the new object 13, whose headers are the new object
    10, a copy of the caller's map with the inferred headers written to
    it. *)
Example verb_on_concrete_store :
  let h : heap :=
    <[0%nat := [("headers", HRef 1)]]>
    (<[1%nat := [("X-Default", HStr "d")]]>
    (<[2%nat := [("url", HStr "https://example.com/posts"); ("headers", HRef 3);
                 ("json", HBool true); ("body", HRef 4)]]>
    (<[3%nat := [("Content-Type", HStr "text/plain")]]>
    (<[4%nat := [("title", HStr "foo")]]> ∅)))) in
  let '(r, h') := @Heap.verb Reference.platform 0%nat "post"
                    (HVal (HRef 2)) (HFun 7) (HVal HUndefined) h in
  r = Dispatched 7 (HStr "https://example.com/posts") 13
  /\ h' !! 2%nat = h !! 2%nat
  /\ h' !! 3%nat = Some [("Content-Type", HStr "text/plain")]
  /\ transport_headers 13 h' = Some 10%nat
  /\ h' !! 10%nat = Some [("Content-Type", HStr "application/json");
                         ("Accept", HStr "application/json")]
  /\ hprop "method" (default [] (h' !! 13%nat)) = HStr "POST".
Proof. vm_compute. repeat split. Qed.

End HeapFacts.

(** ** The statements at concrete inputs *)

Section Witnesses.
#[local] Existing Instance Reference.platform.
#[local] Existing Instance Reference.jar.

Lemma missing_url_is_delivered_not_thrown_witness :
  let fetch : transport := fun _ _ => Rejected (TransportFailure "unused") in
  let uri := Val (VObj [("json", VBool true)]) in
  let finalOptions := spread2 (defaultOptions request) (opts_of uri (Val VUndefined)) in
  method_of finalOptions = Normal "GET"
  /\ truthy (url_of finalOptions) = false
  /\ mainRequest fetch request uri (Val VUndefined) (Fun 7)
     = Normal (ReturnsUndefined 7
                 {| cb_when := Synchronous;
                    cb_error := Some (JsError "URL is required.");
                    cb_response := None; cb_body := VNull |}).
Proof.
  cbn zeta. split; [reflexivity|]. split; [reflexivity|].
  exact (missing_url_is_delivered_not_thrown
           (fun _ _ => Rejected (TransportFailure "unused")) request
           (Val (VObj [("json", VBool true)])) (Val VUndefined) (Fun 7) "GET"
           eq_refl eq_refl).
Defined.

Lemma streaming_versus_buffering_witness :
  let res := {| status := 200; statusText := "OK"; res_headers := [];
                res_body := BodyComplete "hello" |} in
  let fetch : transport := fun _ _ => Fulfilled res in
  let options := [("url", VStr "https://example.com/a")] in
  ok res = true
  /\ _promise (run fetch (new_DropinRequest options) [Pipe 1; NextTick; TransportSettles])
     = Resolved (WithResponse res)
  /\ written (run fetch (new_DropinRequest options) [Pipe 1; NextTick; TransportSettles])
     = "hello"
  /\ _promise (run fetch (new_DropinRequest options) [NextTick; TransportSettles])
     = Resolved (WithBody (VStr "hello")).
Proof.
  cbn zeta. split; [reflexivity|].
  destruct (streaming_versus_buffering
              (fun _ _ => Fulfilled {| status := 200; statusText := "OK";
                                       res_headers := [];
                                       res_body := BodyComplete "hello" |})
              [("url", VStr "https://example.com/a")] _ _ _ [1%nat] []
              eq_refl eq_refl eq_refl) as [Hpiped Hunpiped].
  destruct (Hpiped eq_refl ltac:(discriminate)) as (Hp & Hw & _).
  destruct (Hunpiped (VStr "hello") eq_refl) as [Hu _].
  split; [exact Hp|]. split; [exact Hw | exact Hu].
Defined.

Lemma malformed_json_degrades_to_text_witness :
  let res := {| status := 200; statusText := "OK"; res_headers := [];
                res_body := BodyComplete "<html>" |} in
  let fetch : transport := fun _ _ => Fulfilled res in
  let options := [("url", VStr "https://example.com/a"); ("json", VBool true)] in
  JSON_parse "<html>" = None
  /\ consumeBody res options = Normal (VStr "<html>")
  /\ cb_error (callback_path fetch options) = None
  /\ _promise (run fetch (new_DropinRequest options) [NextTick; TransportSettles])
     = Resolved (WithBody (VStr "<html>")).
Proof.
  cbn zeta. split; [reflexivity|].
  destruct (malformed_json_degrades_to_text
              (fun _ _ => Fulfilled {| status := 200; statusText := "OK";
                                       res_headers := [];
                                       res_body := BodyComplete "<html>" |})
              [("url", VStr "https://example.com/a"); ("json", VBool true)]
              (VStr "https://example.com/a")
              {| fo_method := "GET"; fo_headers := []; fo_signal := None;
                 fo_body := None |}
              {| status := 200; statusText := "OK"; res_headers := [];
                 res_body := BodyComplete "<html>" |}
              "<html>" eq_refl eq_refl eq_refl) as [Hc Hrest].
  destruct (Hrest eq_refl eq_refl eq_refl) as (_ & Hcb & Hok & _).
  split; [exact Hc|]. split; [apply Hcb; reflexivity | apply Hok; reflexivity].
Defined.

Lemma body_precedence_witness :
  let options := [("url", VStr "https://example.com/posts");
                  ("json", VBool true);
                  ("form", VObj [("a", VStr "1")]);
                  ("body", VObj [("title", VStr "foo")]);
                  ("headers", VObj [("Content-Type", VStr "text/plain")])] in
  exists url fo,
    translateOptions options = Normal (url, fo)
    /\ fo_body fo = Some (VStr (JSON_stringify (VObj [("title", VStr "foo")])))
    /\ get "Content-Type" (fo_headers fo) = Some (VStr "application/json")
    /\ get "Accept" (fo_headers fo) = Some (VStr "application/json").
Proof.
  cbn zeta. eexists. eexists. split; [reflexivity|].
  destruct (body_precedence (H := Reference.platform) _ _ _
              (eq_refl : translateOptions
                           [("url", VStr "https://example.com/posts");
                            ("json", VBool true);
                            ("form", VObj [("a", VStr "1")]);
                            ("body", VObj [("title", VStr "foo")]);
                            ("headers", VObj [("Content-Type", VStr "text/plain")])]
                         = Normal _)) as [Hjson _].
  destruct (Hjson eq_refl) as (Hb & Hct & Hacc & _).
  split; [exact Hb|]. split; [exact Hct | exact Hacc].
Defined.

Lemma qs_entries_are_appended_witness :
  let options := [("url", VStr "https://httpbin.org/get?a=0");
                  ("qs", VObj [("a", VNum 1); ("b", VStr "hello world")])] in
  truthy (prop "qs" options) = true
  /\ exists fo,
       translateOptions options
       = Normal (VStr "https://httpbin.org/get?a=0&a=1&b=hello+world", fo).
Proof.
  cbn zeta. split; [reflexivity|]. eexists.
  destruct (qs_entries_are_appended (H := Reference.platform)
              [("url", VStr "https://httpbin.org/get?a=0");
               ("qs", VObj [("a", VNum 1); ("b", VStr "hello world")])]
              (VStr "https://httpbin.org/get?a=0&a=1&b=hello+world")
              {| fo_method := "GET"; fo_headers := []; fo_signal := None;
                 fo_body := None |}
              eq_refl eq_refl) as (u & Hu & Hurl).
  reflexivity.
Defined.

Lemma cookie_header_only_when_nonempty_witness :
  let options := [("url", VStr "https://example.com/a");
                  ("headers", VObj [("Cookie", VStr "mine=1")])] in
  let fo := {| fo_method := "GET"; fo_headers := [("Cookie", VStr "sid=42")];
               fo_signal := None; fo_body := None |} in
  JarRevision.translateOptions options (Some "sid=42")
  = Normal (VStr "https://example.com/a", fo)
  /\ get "Cookie" (fo_headers fo) = Some (VStr "sid=42").
Proof.
  cbn zeta.
  assert (Ht : JarRevision.translateOptions
                 [("url", VStr "https://example.com/a");
                  ("headers", VObj [("Cookie", VStr "mine=1")])] (Some "sid=42")
               = Normal (VStr "https://example.com/a",
                         {| fo_method := "GET";
                            fo_headers := [("Cookie", VStr "sid=42")];
                            fo_signal := None; fo_body := None |}))
    by reflexivity.
  split; [exact Ht|].
  destruct (cookie_header_only_when_nonempty _ _ _ _ Ht) as (c & Hc & Hne & _).
  injection Hc as <-. apply Hne. discriminate.
Defined.

Lemma defaults_chain_witness :
  let self := {| defaultOptions := [("headers", VObj [("A", VStr "1")]);
                                    ("timeout", VNum 1000)] |} in
  let x := [("headers", VObj [("B", VStr "2")]); ("json", VBool true)] in
  let y := [("headers", VObj [("A", VStr "3")]); ("timeout", VNum 5)] in
  unique_keys (defaultOptions self) = true
  /\ unique_keys x = true /\ unique_keys y = true
  /\ json_plain (VObj x) = true
  /\ headers_mapping x = true /\ headers_mapping y = true
  /\ bind (defaults self (VObj x)) (fun r => defaults r (VObj y))
     = defaults self (VObj (merge_spec x y)).
Proof.
  cbn zeta. do 6 (split; [reflexivity|]).
  exact (defaults_chain
           {| defaultOptions := [("headers", VObj [("A", VStr "1")]);
                                 ("timeout", VNum 1000)] |}
           [("headers", VObj [("B", VStr "2")]); ("json", VBool true)]
           [("headers", VObj [("A", VStr "3")]); ("timeout", VNum 5)]
           eq_refl eq_refl eq_refl eq_refl eq_refl eq_refl).
Defined.
End Witnesses.

(** ** The translation of the options: errors and headers *)

Section TranslationFacts.
Context `{Platform}.

Lemma pairs_of_throws_type_error (l : list value) (e : js_error) :
  pairs_of l = Throw e -> exists msg, e = JsTypeError msg.
Proof.
  induction l as [|v l IH]; cbn; [discriminate|].
  unfold pair_of.
  destruct v as [ | | | |s| |items|]; cbn; try (intros [= <-]; eauto).
  - destruct s as [|a [|b [|c s]]]; cbn; try (intros [= <-]; eauto).
    destruct (pairs_of l); cbn; [discriminate|]. intros [= <-]. now apply IH.
  - destruct items as [|a [|b [|c items]]]; cbn; try (intros [= <-]; eauto).
    destruct (pairs_of l); cbn; [discriminate|]. intros [= <-]. now apply IH.
Qed.

Lemma URLSearchParams_new_throws_type_error (init : value) (e : js_error) :
  URLSearchParams_new init = Throw e -> exists msg, e = JsTypeError msg.
Proof.
  destruct init as [ | | | |s|b|l|o]; cbn; try discriminate.
  - destruct s as [|c s]; [discriminate|].
    destruct c as [[] [] [] [] [] [] [] []]; discriminate.
  - apply pairs_of_throws_type_error.
  - apply pairs_of_throws_type_error.
Qed.

Lemma translate_body_throws_type_error (options hdrs : obj) (e : js_error) :
  translate_body options hdrs = Throw e -> exists msg, e = JsTypeError msg.
Proof.
  unfold translate_body. destruct (_ && _); [discriminate|].
  destruct (truthy (prop "form" options)).
  - destruct (URLSearchParams_new _) eqn:E; cbn; [discriminate|].
    intros [= <-]. eapply URLSearchParams_new_throws_type_error; eauto.
  - destruct (truthy _); discriminate.
Qed.

(** X1.  The translation fails with the missing-URL error exactly when the
    method is usable (absent, or a string) and both [url] and [uri] are
    falsy: absent, empty, [null].  Every other failure of the translation
    is a [TypeError]. *)
Theorem url_required_iff (options : obj) :
  (translateOptions options = Throw (JsError "URL is required.")
   <-> (exists method, method_of options = Normal method)
       /\ truthy (url_of options) = false)
  /\ (forall e, translateOptions options = Throw e ->
        e = JsError "URL is required." \/ exists msg, e = JsTypeError msg).
Proof.
  unfold translateOptions.
  destruct (method_of options) as [method|e0] eqn:Hm; cbn [bind].
  - destruct (truthy (url_of options)) eqn:Hu; cbn [negb].
    + destruct (translate_body _ _) as [bh|e1] eqn:Hb; cbn [bind].
      * destruct (translate_qs _ _) as [u|e2] eqn:Hq; cbn [bind].
        -- split; [split; [discriminate | intros [_ ?]; congruence] | discriminate].
        -- unfold translate_qs in Hq.
           destruct (truthy (prop "qs" options)); [|discriminate].
           destruct (URL_parse _); [discriminate|]. injection Hq as <-.
           split; [split; [discriminate | intros [_ ?]; congruence]|].
           intros e [= <-]. right. eauto.
      * apply translate_body_throws_type_error in Hb as [msg ->].
        split; [split; [discriminate | intros [_ ?]; congruence]|].
        intros e [= <-]. right. eauto.
    + split; [split; eauto|]. intros e [= <-]. now left.
  - unfold method_of in Hm.
    destruct (or_else _ _); try discriminate; injection Hm as <-;
      (split; [split; [discriminate | intros [[m Hm'] _]; discriminate]|]);
      intros e [= <-]; right; eauto.
Qed.

(** X2.  With [auth], the [Authorization] header of the request is the
    Basic credentials of [user] and [pass], whatever [Authorization] the
    caller's headers held; a [pass] that is missing is written as the text
    [undefined]. *)
Theorem authorization_overrides (options : obj) (url : value) (fo : FetchOptions) :
  translateOptions options = Normal (url, fo) ->
  truthy (prop "auth" options) = true ->
  let auth := own_props (prop "auth" options) in
  get "Authorization" (fo_headers fo)
  = Some (VStr ("Basic " ++ base64 (to_string (prop "user" auth) ++ ":"
                                    ++ to_string (prop "pass" auth))))
  /\ (get "pass" auth = None ->
      get "Authorization" (fo_headers fo)
      = Some (VStr ("Basic " ++ base64 (to_string (prop "user" auth) ++ ":undefined")))).
Proof.
  intros Ht Ha auth.
  destruct (translateOptions_inv _ _ _ Ht) as (method & body & h & _ & _ & Hb & _ & ->).
  cbn [fo_headers].
  assert (Hget : get "Authorization" h
                 = Some (VStr ("Basic " ++ base64 (to_string (prop "user" auth) ++ ":"
                                                   ++ to_string (prop "pass" auth))))).
  { rewrite (translate_body_other _ _ _ _ "Authorization" Hb) by discriminate.
    unfold translate_auth. rewrite Ha. unfold basic_auth. apply get_set_eq. }
  split; [exact Hget|].
  intros Hp. rewrite Hget. unfold prop at 2. now rewrite Hp.
Qed.

(** X3.  Apart from [Content-Type], [Accept] and [Authorization], the
    headers of the request are those of the caller's header map: each has
    the caller's value, and none is added. *)
Theorem other_headers_pass_through (options : obj) (url : value) (fo : FetchOptions)
  (hdrs : obj) (k : string) :
  translateOptions options = Normal (url, fo) ->
  prop "headers" options = VObj hdrs ->
  unique_keys hdrs = true ->
  k <> "Content-Type" -> k <> "Accept" -> k <> "Authorization" ->
  get k (fo_headers fo) = get k hdrs.
Proof.
  intros Ht Hh Hu Hc Ha Hz.
  destruct (translateOptions_inv _ _ _ Ht) as (method & body & h & _ & _ & Hb & _ & ->).
  cbn [fo_headers].
  rewrite (translate_body_other _ _ _ _ k Hb) by assumption.
  rewrite translate_auth_other by assumption.
  unfold copy_headers, or_else. rewrite Hh. cbn [truthy own_props].
  unfold spread1. rewrite get_assign by now apply unique_keys_NoDup.
  now destruct (get k hdrs).
Qed.

Lemma upper_ascii_not_lower (c : ascii) :
  negb ((97 <=? nat_of_ascii (upper_ascii c)) && (nat_of_ascii (upper_ascii c) <=? 122))%nat
  = true.
Proof. destruct c as [[] [] [] [] [] [] [] []]; reflexivity. Qed.

Lemma toUpperCase_no_lower (s : string) : no_lower (toUpperCase s) = true.
Proof.
  induction s as [|c s IH]; [reflexivity|].
  change (no_lower (toUpperCase (String c s)))
    with (negb ((97 <=? nat_of_ascii (upper_ascii c))
                && (nat_of_ascii (upper_ascii c) <=? 122))%nat
          && no_lower (toUpperCase s)).
  now rewrite upper_ascii_not_lower, IH.
Qed.

(** X4.  The method of a translated request has no lower-case letter; it
    is [GET] when the options give none (or a falsy one). *)
Theorem method_is_upper_case (options : obj) (url : value) (fo : FetchOptions) :
  translateOptions options = Normal (url, fo) ->
  no_lower (fo_method fo) = true
  /\ (truthy (prop "method" options) = false -> fo_method fo = "GET").
Proof.
  intros Ht.
  destruct (translateOptions_inv _ _ _ Ht) as (method & body & h & Hm & _ & _ & _ & ->).
  cbn [fo_method]. unfold method_of, or_else in Hm. split.
  - destruct (truthy (prop "method" options)).
    + destruct (prop "method" options); try discriminate.
      injection Hm as <-. apply toUpperCase_no_lower.
    + now injection Hm as <-.
  - intros Hf. rewrite Hf in Hm. now injection Hm as <-.
Qed.

(** X5.  A query string needs a URL that parses: with [qs] and a URL that
    the URL parser refuses, the translation throws a [TypeError].  Without
    [qs] the URL is never parsed: it is handed on as the caller gave it. *)
Theorem qs_needs_absolute_url (options : obj) (method : string) :
  method_of options = Normal method ->
  truthy (url_of options) = true ->
  (truthy (prop "qs" options) = true ->
   URL_parse (to_string (url_of options)) = None ->
   exists msg, translateOptions options = Throw (JsTypeError msg))
  /\ (truthy (prop "qs" options) = false ->
      forall url fo, translateOptions options = Normal (url, fo) ->
                     url = url_of options).
Proof.
  intros Hm Hu. split.
  - intros Hq Hp. unfold translateOptions. rewrite Hm. cbn [bind]. rewrite Hu.
    cbn [negb].
    destruct (translate_body _ _) as [bh|e] eqn:Hb; cbn [bind].
    + unfold translate_qs. rewrite Hq, Hp. cbn. eauto.
    + apply translate_body_throws_type_error in Hb as [msg ->]. eauto.
  - intros Hq url fo Ht.
    destruct (translateOptions_inv _ _ _ Ht) as (_ & _ & _ & _ & _ & _ & Hqs & _).
    unfold translate_qs in Hqs. rewrite Hq in Hqs. now injection Hqs as <-.
Qed.
End TranslationFacts.

(** ** The merge of the arguments and the defaults *)

Section CallOptions.
Context `{Platform}.
Variable fetch : transport.

Lemma NoDup_keys_nil {V : Type} : NoDup (keys (@nil (string * V))).
Proof. constructor. Qed.

Lemma spread1_NoDup {V : Type} (a : list (string * V)) : NoDup (keys (spread1 a)).
Proof. apply NoDup_keys_assign, NoDup_keys_nil. Qed.

Lemma spread2_NoDup_keys {V : Type} (a b : list (string * V)) :
  NoDup (keys (spread2 a b)).
Proof. unfold spread2. apply NoDup_keys_assign, spread1_NoDup. Qed.

Lemma opts_of_NoDup (uri options : arg) : NoDup (keys (opts_of uri options)).
Proof.
  unfold opts_of.
  assert (Hopts : NoDup (keys (match uri with
                               | Val v =>
                                   if is_object v then spread1 (own_props v)
                                   else match v with
                                        | VStr s => set "url" (VStr s) []
                                        | _ => []
                                        end
                               | Fun _ => []
                               end))).
  { destruct uri as [v|f]; [|constructor].
    destruct (is_object v); [apply spread1_NoDup|].
    destruct v; try constructor; [|constructor]. cbn. now rewrite list_elem_of_In. }
  destruct options as [v|f]; [|exact Hopts].
  destruct (is_object v); [apply spread2_NoDup_keys | exact Hopts].
Qed.

Lemma get_spread1 {V : Type} (k : string) (a : list (string * V)) :
  NoDup (keys a) -> get k (spread1 a) = get k a.
Proof.
  intros Ha. unfold spread1. rewrite get_assign by assumption. now destruct (get k a).
Qed.

Lemma get_spread2 {V : Type} (k : string) (a b : list (string * V)) :
  NoDup (keys a) -> NoDup (keys b) ->
  get k (spread2 a b) = match get k b with Some v => Some v | None => get k a end.
Proof.
  intros Ha Hb. unfold spread2. rewrite !get_assign by assumption.
  cbn [get]. now destruct (get k b), (get k a).
Qed.

Lemma get_spread2_Some {V : Type} (k : string) (v : V) (a b : list (string * V)) :
  NoDup (keys b) -> get k b = Some v -> get k (spread2 a b) = Some v.
Proof. intros Hb Hk. unfold spread2. rewrite get_assign by assumption. now rewrite Hk. Qed.

Lemma toUpperCase_empty (s : string) : toUpperCase s = "" -> s = "".
Proof. now destruct s. Qed.

(** The entry point works with the merged options, in either mode. *)
Lemma mainRequest_final_options (self : instance) (uri options callback : arg) :
  mainRequest fetch self uri options callback
  = match callback_of options callback with
    | Fun f =>
        Normal (ReturnsUndefined f (callback_path fetch (final_options self uri options)))
    | Val _ =>
        Normal (ReturnsRequest (new_DropinRequest (final_options self uri options)))
    end.
Proof. unfold mainRequest, final_options. now destruct (callback_of options callback). Qed.

(** X6.  Key by key, a call uses the value of its options argument, else
    that of its first argument (an options object, or a string, which is
    the [url]), else the default of the instance. *)
Theorem call_options_take_precedence (self : instance) (a b : obj) (s k : string) :
  unique_keys (defaultOptions self) = true ->
  unique_keys a = true ->
  unique_keys b = true ->
  prop k (final_options self (Val (VObj a)) (Val (VObj b)))
  = match get k b with
    | Some v => v
    | None => match get k a with
              | Some v => v
              | None => prop k (defaultOptions self)
              end
    end
  /\ prop k (final_options self (Val (VStr s)) (Val (VObj b)))
     = match get k b with
       | Some v => v
       | None => if String.eqb k "url" then VStr s else prop k (defaultOptions self)
       end.
Proof.
  rewrite !unique_keys_NoDup. intros Hd Ha Hb.
  unfold final_options, prop. split.
  - rewrite get_spread2 by (assumption || apply opts_of_NoDup).
    unfold opts_of. cbn [is_object own_props].
    rewrite get_spread2 by (assumption || apply spread1_NoDup).
    rewrite get_spread1 by assumption.
    now destruct (get k b), (get k a).
  - rewrite get_spread2 by (assumption || apply opts_of_NoDup).
    unfold opts_of. cbn [is_object own_props].
    rewrite get_spread2; [|cbn; repeat constructor; now rewrite list_elem_of_In|assumption].
    cbn [get set]. destruct (get k b); [reflexivity|].
    now destruct (String.eqb k "url").
Qed.

(** X7.  The headers of a call replace the default headers as a whole: when
    the call gives a header map, the request is built from a copy of that
    map alone, and no default header is in it; the default map is copied
    only when the call gives none. *)
Theorem call_headers_replace_defaults (self : instance) (a : obj) :
  unique_keys (defaultOptions self) = true ->
  unique_keys a = true ->
  let final := final_options self (Val (VObj a)) (Val VUndefined) in
  (forall hdrs, get "headers" a = Some (VObj hdrs) -> copy_headers final = spread1 hdrs)
  /\ (get "headers" a = None -> copy_headers final = copy_headers (defaultOptions self)).
Proof.
  rewrite !unique_keys_NoDup. intros Hd Ha final.
  assert (Hp : prop "headers" final
               = match get "headers" a with
                 | Some v => v
                 | None => prop "headers" (defaultOptions self)
                 end).
  { unfold final, final_options, prop.
    rewrite get_spread2 by (assumption || apply opts_of_NoDup).
    unfold opts_of. cbn [is_object own_props].
    rewrite get_spread1 by assumption. now destruct (get "headers" a). }
  unfold copy_headers. rewrite Hp. split.
  - now intros hdrs ->.
  - now intros ->.
Qed.

Lemma toUpperCase_idempotent (s : string) : toUpperCase (toUpperCase s) = toUpperCase s.
Proof.
  induction s as [|c s IH]; [reflexivity|]. cbn. rewrite IH. f_equal.
  destruct c as [[] [] [] [] [] [] [] []]; reflexivity.
Qed.

(** X8.  A verb method forces its method: unless a third argument that is
    an object is given, the call works with [method] set to the verb in
    upper case, whatever method the arguments or the defaults name, and
    that is the method of the request. *)
Theorem verb_forces_method (self : instance) (method : string)
  (uri options callback : arg) :
  method <> "" ->
  match callback_of options callback with
  | Val v => is_object v = false
  | Fun _ => True
  end ->
  let final := verb_options self method uri options callback in
  verb fetch self method uri options callback
  = match callback_of options callback with
    | Fun f => Normal (ReturnsUndefined f (callback_path fetch final))
    | Val _ => Normal (ReturnsRequest (new_DropinRequest final))
    end
  /\ prop "method" final = VStr (toUpperCase method)
  /\ forall url fo, translateOptions final = Normal (url, fo) ->
                    fo_method fo = toUpperCase method.
Proof.
  intros Hne Hcb final.
  assert (Hm : prop "method" final = VStr (toUpperCase method)).
  { unfold final, verb_options, final_options, prop.
    erewrite get_spread2_Some; [reflexivity|apply opts_of_NoDup|].
    unfold opts_of. cbn [is_object own_props].
    assert (Hs : get "method"
                   (spread1 (set "method" (VStr (toUpperCase method))
                                 (opts_of uri options)))
                 = Some (VStr (toUpperCase method))).
    { rewrite get_spread1 by apply NoDup_keys_set, opts_of_NoDup. apply get_set_eq. }
    destruct (callback_of options callback) as [v|f]; [rewrite Hcb|]; exact Hs. }
  split; [|split; [exact Hm|]].
  - unfold verb. rewrite mainRequest_final_options. fold final.
    unfold final, verb_options.
    destruct (callback_of options callback) as [v|f]; cbn [callback_of]; reflexivity.
  - intros url fo Ht.
    destruct (translateOptions_inv _ _ _ Ht) as (m & body & h & Hmo & _ & _ & _ & ->).
    cbn [fo_method]. unfold method_of, or_else in Hmo. rewrite Hm in Hmo.
    cbn [truthy] in Hmo.
    destruct (negb (String.eqb (toUpperCase method) "")) eqn:E.
    + injection Hmo as <-. apply toUpperCase_idempotent.
    + apply negb_false_iff, String.eqb_eq, toUpperCase_empty in E. contradiction.
Qed.
End CallOptions.

(** ** Reading the body, and the life of a request object *)

Section Settlement.
Context `{Platform}.
Variable fetch : transport.

(** X9.  Reading the body fails only when the body stream fails, and then
    with the error of the stream: no content and no option makes
    [consumeBody] throw. *)
Theorem consumeBody_fails_only_with_the_stream (res : Response) (options : obj)
  (e : js_error) :
  consumeBody res options = Throw e
  <-> exists partial reason,
        res_body res = BodyAborted partial reason /\ e = TransportFailure reason.
Proof.
  unfold consumeBody, read_body.
  destruct (res_body res) as [bytes|partial reason|]; cbn [bind].
  - split.
    + repeat case_match; discriminate.
    + intros (p & r & Hb & _). discriminate Hb.
  - split.
    + intros He. exists partial, reason. split; [reflexivity|].
      repeat case_match; congruence.
    + intros (p & r & Hb & ->). injection Hb as _ <-.
      repeat case_match; reflexivity.
  - split.
    + repeat case_match; discriminate.
    + intros (p & r & Hb & _). discriminate Hb.
Qed.

Lemma step_keeps_consistency (options : obj) (this : DropinRequest) (a : action) :
  settled_consistently options this ->
  settled_consistently options (step fetch this a).
Proof.
  intros Hall. pose proof Hall as [Ho Hs]. destruct a as [d| |]; cbn [step].
  - (* pipe *)
    split; [exact Ho|]. cbn [pipe _promise dr_phase emitted written _isPiped].
    destruct (_promise this) as [|[body|res]|e]; try exact Hs.
    destruct Hs as (? & ? & ? & ? & _). now repeat split.
  - (* _init *)
    unfold _init. destruct (dr_phase this) eqn:Hp; try exact Hall.
    destruct (_promise this) as [|[body|res]|e] eqn:Hpr;
      try (destruct Hs as [Hf _]; congruence).
    destruct Hs as (_ & He & Hw).
    destruct (translateOptions (_options this)) as [[url fo]|err].
    + split; [exact Ho|]. cbn. now repeat split.
    + split; [exact Ho|]. cbn. rewrite Hpr, He. cbn.
      split; [reflexivity|]. split; [exact Hw|]. now left.
  - (* on_settled *)
    unfold on_settled. destruct (dr_phase this) as [|out|] eqn:Hp; try exact Hall.
    destruct (_promise this) as [|[body|res]|e] eqn:Hpr;
      try (destruct Hs as [Hf _]; congruence).
    destruct Hs as (_ & He & Hw).
    assert (Hfail : forall err evs,
               evs = [] \/ (exists res, evs = [EvResponse res]) ->
               settled_consistently options (fail err evs this)).
    { intros err evs Hevs. split; [exact Ho|]. cbn. rewrite Hpr, He. cbn.
      split; [reflexivity|]. split; [exact Hw|].
      destruct Hevs as [->|[res ->]]; [now left | right; now exists res]. }
    destruct out as [res|err]; [|apply Hfail; now left].
    destruct (negb (ok res)) eqn:Hok.
    + destruct (consumeBody res (_options this)); apply Hfail; right; now exists res.
    + apply negb_false_iff in Hok.
      destruct (_isPiped this) eqn:Hpi.
      * destruct (res_body res) as [bytes|partial reason|] eqn:Hb;
          cbn [Readable_fromWeb body_bytes];
          [| |apply Hfail; right; now exists res];
          (split; [exact Ho|]); cbn; rewrite ?Hpr, He, Hw; cbn; rewrite Hb;
          now repeat split.
      * destruct (consumeBody res (_options this)) as [body|err] eqn:Hc;
          [|apply Hfail; right; now exists res].
        split; [exact Ho|]. cbn. rewrite ?Hpr, He, Hw. cbn.
        split; [reflexivity|]. split; [reflexivity|].
        exists res. rewrite <- Ho. now repeat split.
Qed.

(** X10.  Whatever happens to a request object and in whatever order, its
    promise, its events and its stream agree: an ['error'] event is
    emitted exactly when the promise rejects, once and with the same error;
    a promise resolved with a body leaves the stream empty, and the body is
    that of a response with an OK status; a promise resolved with the
    response belongs to a piped request, whose stream holds the bytes. *)
Theorem request_settles_consistently (options : obj) (trace : list action) :
  settled_consistently options (run fetch (new_DropinRequest options) trace).
Proof.
  assert (Hnew : settled_consistently options (new_DropinRequest options)).
  { split; [reflexivity|]. cbn. repeat split. discriminate. }
  revert Hnew. generalize (new_DropinRequest options).
  induction trace as [|a trace IH]; intros this Hs; [exact Hs|].
  change (run fetch this (a :: trace)) with (run fetch (step fetch this a) trace).
  apply IH, step_keeps_consistency, Hs.
Qed.

(** X12.  The arguments of the callback, invocation by invocation.  On
    the first invocation they agree: when the response has a body, the body
    argument is that body, and the error is null below status 400 and
    otherwise an error that carries this very response and names its
    status; in every other case the body is null and there is an error.
    The callback is invoked a second time exactly when it threw on a first
    invocation that gave it a body: then it receives what it threw, the
    same response with its body, and a null body. *)
Theorem callback_arguments_by_invocation (options : obj)
  (throws : nat -> callback_call -> option js_error) :
  let c := callback_path fetch options in
  match cb_response c with
  | Some r =>
      match lr_body r with
      | Some body =>
          cb_body c = body
          /\ cb_error c
             = (if statusCode r >=? 400
                then Some (LegacyStatusError
                             ("HTTP Error " ++ dec_of_Z (statusCode r)) r)
                else None)
          /\ invocations (callback_runs fetch options throws)
             = c :: match throws 0%nat c with
                    | Some e => [{| cb_when := Asynchronous; cb_error := Some e;
                                    cb_response := Some r; cb_body := VNull |}]
                    | None => []
                    end
      | None =>
          cb_body c = VNull /\ cb_error c <> None
          /\ invocations (callback_runs fetch options throws) = [c]
      end
  | None =>
      cb_body c = VNull /\ cb_error c <> None
      /\ invocations (callback_runs fetch options throws) = [c]
  end.
Proof.
  cbn zeta. unfold callback_path, callback_runs.
  destruct (translateOptions options) as [[url fo]|e]; [|now cbn].
  destruct (fetch url fo) as [res|e]; [|now cbn].
  destruct (consumeBody res options) as [body|e]; [|now cbn].
  cbn [statusCode]. destruct (status res >=? 400) eqn:E;
    cbn [cb_response lr_body cb_body cb_error statusCode]; rewrite E;
    (split; [reflexivity|]); (split; [reflexivity|]);
    now destruct (throws 0%nat _).
Qed.
End Settlement.

(** ** Derived instances *)

Section DerivedInstances.

(** X13.  [defaults] throws exactly when it is called with [undefined] or
    [null] on an instance whose defaults, cloned, hold truthy headers; what
    it throws is a [TypeError]. *)
Theorem defaults_throws_iff (self : instance) (newDefaults : value) (e : js_error) :
  defaults self newDefaults = Throw e
  <-> (newDefaults = VUndefined \/ newDefaults = VNull)
      /\ truthy (prop "headers" (json_clone_obj (defaultOptions self))) = true
      /\ e = JsTypeError "Cannot read properties of undefined".
Proof.
  unfold defaults, member.
  destruct (truthy (prop "headers" (json_clone_obj (defaultOptions self)))).
  - destruct newDefaults; cbn [bind];
      try (split; [intros He; injection He as <-; now repeat split; auto
                  | intros (_ & _ & ->); reflexivity]);
      (split; [repeat case_match; discriminate
              | intros ([Hn|Hn] & _); discriminate Hn]).
  - split; [discriminate | intros (_ & Hf & _); discriminate Hf].
Qed.

(** X14.  The defaults of a derived instance, key by key: a new default
    wins over the clone of the current one; under [headers], when both
    sides hold truthy headers, the two header maps are merged instead, the
    new headers winning name by name. *)
Theorem derived_defaults_lookup (self : instance) (y : obj) (k : string) :
  unique_keys (defaultOptions self) = true ->
  unique_keys y = true ->
  let current := json_clone_obj (defaultOptions self) in
  exists derived,
    defaults self (VObj y) = Normal derived
    /\ (k <> "headers" ->
        prop k (defaultOptions derived)
        = match get k y with Some v => v | None => prop k current end)
    /\ (truthy (prop "headers" current) && truthy (prop "headers" y) = false ->
        prop "headers" (defaultOptions derived)
        = match get "headers" y with
          | Some v => v
          | None => prop "headers" current
          end)
    /\ (truthy (prop "headers" current) && truthy (prop "headers" y) = true ->
        prop "headers" (defaultOptions derived)
        = VObj (spread2 (own_props (prop "headers" current))
                        (own_props (prop "headers" y)))).
Proof.
  rewrite !unique_keys_NoDup. intros Hd Hy current.
  assert (Hc : NoDup (keys current)) by now apply json_clone_obj_NoDup.
  eexists. split; [apply defaults_obj|]. cbn [defaultOptions].
  fold current. unfold merge_defaults.
  assert (Hg : forall k', prop k' (spread2 current y)
                          = match get k' y with Some v => v | None => prop k' current end).
  { intros k'. unfold prop. rewrite get_spread2 by assumption. now destruct (get k' y). }
  split; [|split].
  - intros Hk. destruct (truthy (prop "headers" current) && truthy (prop "headers" y)).
    + unfold prop at 1. rewrite get_set_ne by congruence. apply Hg.
    + apply Hg.
  - intros ->. apply Hg.
  - intros ->. unfold prop at 1. now rewrite get_set_eq.
Qed.
End DerivedInstances.

(** ** The jar across responses and calls *)

Section JarUpdates.
Context `{Platform} {Jar : Type} `{JarRevision.CookieJar Jar}.
Variable fetch : transport.

(** X15.  The cookies of a response are stored whatever becomes of the
    response: once the transport has answered with a [set-cookie] header
    that the jar accepts, the jar holds it, in callback mode and on the
    promise path, for every status and also when reading the body fails. *)
Theorem jar_stores_cookies_of_any_response (finalOptions : obj) (j j' : Jar)
  (url : value) (fo : FetchOptions) (res : Response) (c : string)
  (this : DropinRequest) :
  JarRevision.translateOptions finalOptions (Some j) = Normal (url, fo) ->
  fetch url fo = Fulfilled res ->
  JarRevision.headers_get "set-cookie" res = Some c ->
  c <> "" ->
  JarRevision.setCookie j c url = Normal j' ->
  dr_phase this = InFlight (Fulfilled res) ->
  (JarRevision.callback_path fetch finalOptions (Some j)).2 = Some j'
  /\ (JarRevision.on_settled (Some j) url this).2 = Some j'.
Proof.
  intros Ht Hf Hg Hc Hs Hp.
  assert (Hu : JarRevision.update_jar (Some j) res url = Normal (Some j')).
  { unfold JarRevision.update_jar. rewrite Hg.
    apply String.eqb_neq in Hc. rewrite Hc. cbn [negb]. now rewrite Hs. }
  split.
  - unfold JarRevision.callback_path. rewrite Ht, Hf, Hu.
    destruct (consumeBody res finalOptions); [destruct (negb (ok res))|]; reflexivity.
  - unfold JarRevision.on_settled. rewrite Hp, Hu.
    destruct (negb (ok res)); [|destruct (_isPiped this)];
      try (now destruct (res_body res));
      destruct (consumeBody res (_options this)); reflexivity.
Qed.

(** X16.  Only such a response changes the jar: when a call in callback
    mode leaves a jar other than the one it was given, its options
    translated, the transport answered, and the answer had a non-empty
    [set-cookie] header, which the jar accepted. *)
Theorem jar_changes_only_by_set_cookie (finalOptions : obj) (jar : option Jar) :
  (JarRevision.callback_path fetch finalOptions jar).2 <> jar ->
  exists j j' url fo res c,
    jar = Some j
    /\ JarRevision.translateOptions finalOptions jar = Normal (url, fo)
    /\ fetch url fo = Fulfilled res
    /\ JarRevision.headers_get "set-cookie" res = Some c
    /\ c <> ""
    /\ JarRevision.setCookie j c url = Normal j'
    /\ (JarRevision.callback_path fetch finalOptions jar).2 = Some j'.
Proof.
  unfold JarRevision.callback_path.
  destruct (JarRevision.translateOptions finalOptions jar) as [[url fo]|e];
    [|intros Hne; now destruct Hne].
  destruct (fetch url fo) as [res|e] eqn:Hf; [|intros Hne; now destruct Hne].
  unfold JarRevision.update_jar.
  destruct jar as [j|].
  - destruct (JarRevision.headers_get "set-cookie" res) as [c|] eqn:Hg.
    + destruct (negb (String.eqb c "")) eqn:Hc.
      * destruct (JarRevision.setCookie j c url) as [j'|e] eqn:Hs; cbn [bind].
        -- intros _. exists j, j', url, fo, res, c.
           apply negb_true_iff, String.eqb_neq in Hc.
           do 6 (split; [reflexivity || assumption|]).
           destruct (consumeBody res finalOptions); [destruct (negb (ok res))|];
             reflexivity.
        -- intros Hne; now destruct Hne.
      * intros Hne. exfalso. apply Hne.
        destruct (consumeBody res finalOptions); [destruct (negb (ok res))|];
          reflexivity.
    + intros Hne. exfalso. apply Hne.
      destruct (consumeBody res finalOptions); [destruct (negb (ok res))|];
        reflexivity.
  - intros Hne. exfalso. apply Hne.
    destruct (consumeBody res finalOptions); [destruct (negb (ok res))|];
      reflexivity.
Qed.

(** X17.  Without a jar the callback of the jar revision is that of the
    canonical module when the transport fails, when reading the body
    fails, and for the statuses that the two classify alike: 200 to 299,
    and 400 and above.  For the other statuses the two calls differ. *)
Theorem jar_revision_callback_without_jar (options : obj) (url : value)
  (fo : FetchOptions) :
  translateOptions options = Normal (url, fo) ->
  let same :=
    (JarRevision.callback_path fetch options (@None Jar)).1
    = callback_path fetch options in
  (forall e, fetch url fo = Rejected e -> same)
  /\ (forall res, fetch url fo = Fulfilled res ->
        (same <-> (exists partial reason, res_body res = BodyAborted partial reason)
                  \/ 200 <= status res <= 299 \/ 400 <= status res)).
Proof.
  intros Ht same. subst same.
  unfold JarRevision.callback_path, callback_path.
  rewrite translateOptions_without_jar, Ht. split.
  - now intros e ->.
  - intros res ->. cbn [JarRevision.update_jar].
    destruct (consumeBody res options) as [body|e] eqn:Hc.
    + assert (Hno : ~ exists p r, res_body res = BodyAborted p r).
      { intros (p & r & Hpr).
        assert (Hthrow : consumeBody res options = Throw (TransportFailure r)).
        { unfold consumeBody, read_body. rewrite Hpr. repeat case_match; reflexivity. }
        congruence. }
      unfold ok. cbn [statusCode].
      destruct (200 <=? status res) eqn:E1, (status res <=? 299) eqn:E2,
               (status res >=? 400) eqn:E3; cbn [andb negb fst];
        try lia;
        try (split; [intros _; lia | reflexivity]);
        (split; [discriminate | intros [Hc'|Hc']; [now destruct Hno | lia]]).
    + split; [intros _; left|reflexivity].
      unfold consumeBody, read_body in Hc.
      destruct (res_body res) as [bytes|partial reason|]; [|eauto|];
        cbn [bind] in Hc; repeat case_match; discriminate.
Qed.

(** X18.  Without a jar the request object of the jar revision goes
    through the states of the canonical one. *)
Theorem jar_revision_request_without_jar (this : DropinRequest) (url : value) :
  (JarRevision._init fetch (@None Jar) this).1 = _init fetch this
  /\ JarRevision.on_settled (@None Jar) url this = (on_settled this, None).
Proof.
  split.
  - unfold JarRevision._init, _init. rewrite translateOptions_without_jar.
    destruct (dr_phase this); try reflexivity.
    now destruct (translateOptions (_options this)) as [[u fo]|e].
  - unfold JarRevision.on_settled, on_settled.
    destruct (dr_phase this) as [|[res|e]|]; try reflexivity.
    cbn [JarRevision.update_jar].
    destruct (negb (ok res)); [|destruct (_isPiped this)];
      try (now destruct (res_body res));
      destruct (consumeBody res (_options this)); reflexivity.
Qed.
End JarUpdates.

Section InstanceJar.
Context `{Platform} {Jar : Type} `{JarRevision.CookieJar Jar}.
Variable new_jar : Jar.
Variable fetch : transport.

(** X19.  The jar of an instance carries over from call to call.  A call
    with [jar: true] in callback mode, whose response sets a cookie, leaves
    the instance with the updated jar; the next such call on the instance
    works with that jar, while the same call on an instance derived with
    [defaults] starts from a new jar. *)
Theorem instance_jar_carries_over (self : JarSession.jar_instance (Jar := Jar))
  (uri options callback : arg) (f : nat) (url : value) (fo : FetchOptions)
  (res : Response) (c : string) (j1 : Jar) :
  callback_of options callback = Fun f ->
  prop "jar" (spread2 (JarSession.ji_defaults self) (opts_of uri options)) = VBool true ->
  JarRevision.translateOptions
    (spread2 (JarSession.ji_defaults self) (opts_of uri options))
    (Some (default new_jar (JarSession.instanceJar self))) = Normal (url, fo) ->
  fetch url fo = Fulfilled res ->
  JarRevision.headers_get "set-cookie" res = Some c ->
  c <> "" ->
  JarRevision.setCookie (default new_jar (JarSession.instanceJar self)) c url
  = Normal j1 ->
  let self1 := (JarSession.mainRequest new_jar fetch self uri options callback).2 in
  self1 = {| JarSession.ji_defaults := JarSession.ji_defaults self;
             JarSession.instanceJar := Some j1 |}
  /\ (forall uri2 options2 callback2 f2,
        callback_of options2 callback2 = Fun f2 ->
        prop "jar" (spread2 (JarSession.ji_defaults self) (opts_of uri2 options2))
        = VBool true ->
        (JarSession.mainRequest new_jar fetch self1 uri2 options2 callback2).1
        = JarSession.JarReturnsUndefined f2
            (JarRevision.callback_path fetch
               (spread2 (JarSession.ji_defaults self) (opts_of uri2 options2))
               (Some j1)).1)
  /\ (forall newDefaults derived uri2 options2 callback2 f2,
        JarSession.jar_defaults self1 newDefaults = Normal derived ->
        callback_of options2 callback2 = Fun f2 ->
        prop "jar" (spread2 (JarSession.ji_defaults derived) (opts_of uri2 options2))
        = VBool true ->
        (JarSession.mainRequest new_jar fetch derived uri2 options2 callback2).1
        = JarSession.JarReturnsUndefined f2
            (JarRevision.callback_path fetch
               (spread2 (JarSession.ji_defaults derived) (opts_of uri2 options2))
               (Some new_jar)).1).
Proof.
  intros Hcb Hj Ht Hf Hg Hc Hs self1.
  assert (Hu : JarRevision.update_jar
                 (Some (default new_jar (JarSession.instanceJar self))) res url
               = Normal (Some j1)).
  { unfold JarRevision.update_jar. rewrite Hg.
    apply String.eqb_neq in Hc. rewrite Hc. cbn [negb]. now rewrite Hs. }
  assert (H1 : self1 = {| JarSession.ji_defaults := JarSession.ji_defaults self;
                          JarSession.instanceJar := Some j1 |}).
  { subst self1. unfold JarSession.mainRequest, JarSession.select_jar.
    rewrite Hcb, Hj. cbn [JarSession.ji_defaults].
    unfold JarRevision.callback_path. rewrite Ht, Hf, Hu.
    destruct (consumeBody res _); [destruct (negb (ok res))|]; reflexivity. }
  split; [exact H1|]. rewrite H1. split.
  - intros uri2 options2 callback2 f2 Hcb2 Hj2.
    unfold JarSession.mainRequest, JarSession.select_jar.
    cbn [JarSession.ji_defaults JarSession.instanceJar]. rewrite Hcb2, Hj2.
    cbn [default]. now destruct (JarRevision.callback_path _ _ _).
  - intros newDefaults derived uri2 options2 callback2 f2 Hd Hcb2 Hj2.
    unfold JarSession.jar_defaults in Hd.
    destruct (defaults _ newDefaults) as [r|e]; [|discriminate Hd].
    cbn [bind] in Hd. injection Hd as <-.
    unfold JarSession.mainRequest, JarSession.select_jar.
    cbn [JarSession.ji_defaults JarSession.instanceJar] in *. rewrite Hcb2, Hj2.
    cbn [default]. now destruct (JarRevision.callback_path _ _ _).
Qed.
End InstanceJar.

(** ** The class variant *)

Section ClassWrapper.
Context `{Platform}.
Variable res_url : Response -> string.
Variable fetch : ClassVariant.class_transport.

Lemma get_filter_other_key {V : Type} (k k' : string) (l : list (string * V)) :
  k <> k' ->
  get k (filter (fun kv => kv.1 <> k') l) = get k l.
Proof.
  intros Hk. induction l as [|[k1 v1] l IH]; [reflexivity|].
  rewrite filter_cons. cbn [fst]. destruct (decide (k1 <> k')) as [Hd|Hd].
  - cbn [get fst snd]. now rewrite IH.
  - apply dec_stable in Hd. subst k1. cbn [get fst snd].
    destruct (String.eqb k k') eqn:E; [apply String.eqb_eq in E; contradiction|].
    exact IH.
Qed.

Lemma get_filter_that_key {V : Type} (k : string) (l : list (string * V)) :
  get k (filter (fun kv => kv.1 <> k) l) = None.
Proof.
  induction l as [|[k1 v1] l IH]; [reflexivity|].
  rewrite filter_cons. cbn [fst]. destruct (decide (k1 <> k)) as [Hd|Hd]; [|exact IH].
  cbn [get fst snd]. destruct (String.eqb k k1) eqn:E; [|exact IH].
  apply String.eqb_eq in E. congruence.
Qed.

Lemma get_map_snd {V W : Type} (f : V -> W) (k : string) (l : list (string * V)) :
  get k (map (fun kv => (kv.1, f kv.2)) l) = option_map f (get k l).
Proof.
  induction l as [|[k1 v1] l IH]; [reflexivity|].
  cbn [map get fst snd]. now destruct (String.eqb k k1).
Qed.

Lemma keys_map_snd {V W : Type} (f : V -> W) (l : list (string * V)) :
  keys (map (fun kv => (kv.1, f kv.2)) l) = keys l.
Proof. unfold keys. rewrite map_map. now apply map_ext. Qed.

Lemma wrapper_request_inv (defaults : obj) (options url : value)
  (fo : ClassVariant.class_fetch) :
  ClassVariant.wrapper_request defaults options = Normal (url, fo) ->
  exists bh,
    fo = ClassVariant.wrapper_fetchOptions defaults
           (own_props (ClassVariant._normalizeOptions options)) bh.
Proof.
  unfold ClassVariant.wrapper_request. intros Hr.
  destruct (ClassVariant.wrapper_url _) as [u|e]; [|discriminate Hr].
  cbn [bind] in Hr.
  destruct (ClassVariant.wrapper_body _ _) as [bh|e]; [|discriminate Hr].
  cbn [bind] in Hr. injection Hr as _ <-. now exists bh.
Qed.

(** X20.  In the class variant no header reaches the transport: the
    options passed to [fetch] never have a [headers] property, whatever
    headers the defaults and the call give and whatever [Content-Type] the
    body implies. *)
Theorem class_headers_never_reach_fetch (defaults : obj) (options url : value)
  (fo : ClassVariant.class_fetch) :
  ClassVariant.wrapper_request defaults options = Normal (url, fo) ->
  get "headers" fo = None.
Proof.
  intros Hr. destruct (wrapper_request_inv _ _ _ _ Hr) as [bh ->].
  unfold ClassVariant.wrapper_fetchOptions. apply get_filter_that_key.
Qed.

(** X21.  In the class variant every default other than [headers] is
    passed to [fetch] as it is, and overrides what the call computed: a
    default [method] or [body] replaces the method and the body of the
    call.  The method of the call, or [GET], is used only when the
    defaults name none. *)
Theorem class_defaults_override_the_call (defaults : obj) (options url : value)
  (fo : ClassVariant.class_fetch) :
  unique_keys defaults = true ->
  ClassVariant.wrapper_request defaults options = Normal (url, fo) ->
  (forall k v, k <> "headers" -> get k defaults = Some v ->
               get k fo = Some (ClassVariant.Raw v))
  /\ (get "method" defaults = None ->
      get "method" fo
      = Some (ClassVariant.Raw
                (or_else (prop "method"
                            (own_props (ClassVariant._normalizeOptions options)))
                         (VStr "GET")))).
Proof.
  rewrite unique_keys_NoDup. intros Hd Hr.
  destruct (wrapper_request_inv _ _ _ _ Hr) as [bh ->].
  unfold ClassVariant.wrapper_fetchOptions.
  assert (Hnd : NoDup (keys (map (fun kv : string * value =>
                                    (kv.1, ClassVariant.Raw kv.2)) defaults)))
    by now rewrite keys_map_snd.
  split.
  - intros k v Hk Hg. rewrite get_filter_other_key by exact Hk.
    rewrite get_assign by exact Hnd. rewrite get_map_snd, Hg. reflexivity.
  - intros Hg. rewrite get_filter_other_key by discriminate.
    rewrite get_assign by exact Hnd. rewrite get_map_snd, Hg.
    cbn [option_map get fst snd String.eqb Ascii.eqb Bool.eqb].
    unfold prop at 2. rewrite Hg. cbn [default].
    unfold or_else at 2. cbn [truthy]. reflexivity.
Qed.

(** X22.  Once the transport has answered, the class variant never
    rejects: in promise style the call resolves with the parsed body for
    every status; in callback style the callback receives the response and
    the body, with an error exactly when the status is not OK. *)
Theorem class_settles_with_the_body (defaults : obj) (options v url : value)
  (fo : ClassVariant.class_fetch) (res : Response) (f : nat) :
  ClassVariant.wrapper_request defaults options = Normal (url, fo) ->
  fetch url fo = Fulfilled res ->
  let body :=
    ClassVariant.wrapper_parse res (own_props (ClassVariant._normalizeOptions options)) in
  ClassVariant.request res_url fetch defaults options (Val v)
  = ClassVariant.PromiseResolved body
  /\ exists error response,
       ClassVariant.request res_url fetch defaults options (Fun f)
       = ClassVariant.CallbackInvoked f error (Some response) body
       /\ prop "body" response = body
       /\ prop "statusCode" response = VNum (status res)
       /\ (error = None <-> 200 <= status res <= 299).
Proof.
  intros Hr Hf body.
  unfold ClassVariant.request, ClassVariant._fetchWrapper. rewrite Hr.
  cbn [bind fst snd]. rewrite Hf. fold body.
  destruct (negb (ok res)) eqn:Hok; cbn [ClassVariant.wr_body ClassVariant.wr_error
                                          ClassVariant.wr_response].
  - split; [reflexivity|]. eexists _, _. split; [reflexivity|].
    split; [reflexivity|]. split; [reflexivity|].
    split; [discriminate|]. intros Hs. apply negb_true_iff in Hok.
    unfold ok in Hok. lia.
  - split; [reflexivity|]. eexists _, _. split; [reflexivity|].
    split; [reflexivity|]. split; [reflexivity|].
    split; [intros _|reflexivity]. apply negb_false_iff in Hok.
    unfold ok in Hok. lia.
Qed.

(** X23.  The class variant reads a body as the canonical module does,
    except that a body it cannot parse as JSON becomes the empty string
    instead of the text, and that it knows no [encoding: null]. *)
Theorem class_body_versus_canonical (res : Response) (options : obj)
  (text : string) :
  res_body res = BodyComplete text ->
  is_null (prop "encoding" options) = false ->
  consumeBody res options = Normal (ClassVariant.wrapper_parse res options)
  <-> ~ (truthy (prop "json" options) = true /\ JSON_parse text = None
         /\ text <> "").
Proof.
  intros Hb He. unfold consumeBody, ClassVariant.wrapper_parse, read_body.
  rewrite Hb, He. cbn [bind].
  destruct (truthy (prop "json" options)).
  - destruct (JSON_parse text) as [v|] eqn:Hp.
    + split; [intros _ (_ & Hn & _); discriminate Hn | reflexivity].
    + split.
      * intros Heq (_ & _ & Hne). congruence.
      * intros Hn. destruct (String.eqb text "") eqn:E.
        -- apply String.eqb_eq in E. now subst text.
        -- apply String.eqb_neq in E. exfalso. apply Hn. now repeat split.
  - split; [intros _ (Hj & _); discriminate Hj | reflexivity].
Qed.
End ClassWrapper.

Module ClassHeapFacts.
Import Heap.

(** X24.  The verb methods of the class variant write into the object
    they are given: after the call the caller's options object has the
    method of the verb, every other object is as it was, and the request
    is made with the caller's object itself. *)
Theorem class_verb_writes_to_callers_object (method : string) (l : loc)
  (o : hobj) (h : heap) :
  h !! l = Some o ->
  (ClassHeap.verb_options method (HRef l) h).1 = Normal l
  /\ (ClassHeap.verb_options method (HRef l) h).2 !! l
     = Some (set "method" (HStr method) o)
  /\ (forall l', l' <> l ->
                 (ClassHeap.verb_options method (HRef l) h).2 !! l' = h !! l')
  /\ (hprop "method" o <> HStr method ->
      (ClassHeap.verb_options method (HRef l) h).2 !! l <> h !! l).
Proof.
  intros Hl. cbn [ClassHeap.verb_options]. unfold mbind, write, ret. cbn [fst snd].
  split; [reflexivity|].
  assert (Ha : alter (set "method" (HStr method)) l h !! l
               = Some (set "method" (HStr method) o)).
  { rewrite lookup_alter_eq. now rewrite Hl. }
  split; [exact Ha|]. split.
  - intros l' Hne. now rewrite lookup_alter_ne by congruence.
  - intros Hm. rewrite Ha, Hl. intros [= Heq]. apply Hm.
    unfold hprop. rewrite <- Heq. now rewrite get_set_eq.
Qed.

End ClassHeapFacts.

(** ** The further statements at concrete inputs *)

Section FurtherWitnesses.
#[local] Existing Instance Reference.platform.
#[local] Existing Instance Reference.jar.

Lemma authorization_overrides_witness :
  let options := [("url", VStr "https://example.com/a");
                  ("auth", VObj [("user", VStr "u")])] in
  exists url fo,
    translateOptions options = Normal (url, fo)
    /\ get "Authorization" (fo_headers fo)
       = Some (VStr ("Basic " ++ base64 "u:undefined")).
Proof.
  cbn zeta. eexists. eexists. split; [reflexivity|].
  exact (proj2 (authorization_overrides (H := Reference.platform)
                  [("url", VStr "https://example.com/a");
                   ("auth", VObj [("user", VStr "u")])] _ _ eq_refl eq_refl)
               eq_refl).
Defined.

Lemma other_headers_pass_through_witness :
  let options := [("url", VStr "https://example.com/a");
                  ("headers", VObj [("X-Trace", VStr "1")]);
                  ("json", VBool true);
                  ("body", VObj [("a", VNum 1)])] in
  exists url fo,
    translateOptions options = Normal (url, fo)
    /\ get "X-Trace" (fo_headers fo) = Some (VStr "1").
Proof.
  cbn zeta. eexists. eexists. split; [reflexivity|].
  apply (other_headers_pass_through (H := Reference.platform)
           [("url", VStr "https://example.com/a");
            ("headers", VObj [("X-Trace", VStr "1")]);
            ("json", VBool true);
            ("body", VObj [("a", VNum 1)])] _ _
           [("X-Trace", VStr "1")] "X-Trace" eq_refl eq_refl eq_refl);
    discriminate.
Defined.

Lemma method_is_upper_case_witness :
  let options := [("url", VStr "https://example.com/a"); ("method", VStr "post")] in
  exists url fo,
    translateOptions options = Normal (url, fo)
    /\ no_lower (fo_method fo) = true.
Proof.
  cbn zeta. eexists. eexists. split; [reflexivity|].
  exact (proj1 (method_is_upper_case (H := Reference.platform)
                  [("url", VStr "https://example.com/a"); ("method", VStr "post")]
                  _ _ eq_refl)).
Defined.

Lemma qs_needs_absolute_url_witness :
  let options := [("url", VStr "/posts"); ("qs", VObj [("a", VNum 1)])] in
  method_of options = Normal "GET"
  /\ truthy (url_of options) = true
  /\ exists msg, translateOptions options = Throw (JsTypeError msg).
Proof.
  cbn zeta. split; [reflexivity|]. split; [reflexivity|].
  exact (proj1 (qs_needs_absolute_url (H := Reference.platform)
                  [("url", VStr "/posts"); ("qs", VObj [("a", VNum 1)])] "GET"
                  eq_refl eq_refl)
               eq_refl eq_refl).
Defined.

Lemma call_options_take_precedence_witness :
  let self := {| defaultOptions := [("timeout", VNum 5); ("json", VBool true)] |} in
  let a := [("url", VStr "https://example.com/a"); ("json", VBool false)] in
  let b := [("timeout", VNum 9)] in
  prop "json" (final_options self (Val (VObj a)) (Val (VObj b))) = VBool false
  /\ prop "url" (final_options self (Val (VStr "https://example.com/b")) (Val (VObj b)))
     = VStr "https://example.com/b".
Proof.
  cbn zeta. split.
  - exact (proj1 (call_options_take_precedence
                    {| defaultOptions := [("timeout", VNum 5); ("json", VBool true)] |}
                    [("url", VStr "https://example.com/a"); ("json", VBool false)]
                    [("timeout", VNum 9)] "https://example.com/b" "json"
                    eq_refl eq_refl eq_refl)).
  - exact (proj2 (call_options_take_precedence
                    {| defaultOptions := [("timeout", VNum 5); ("json", VBool true)] |}
                    [("url", VStr "https://example.com/a"); ("json", VBool false)]
                    [("timeout", VNum 9)] "https://example.com/b" "url"
                    eq_refl eq_refl eq_refl)).
Defined.

Lemma call_headers_replace_defaults_witness :
  let self := {| defaultOptions := [("headers", VObj [("X-Default", VStr "d")])] |} in
  let a := [("url", VStr "https://example.com/a");
            ("headers", VObj [("X-Call", VStr "c")])] in
  copy_headers (final_options self (Val (VObj a)) (Val VUndefined))
  = [("X-Call", VStr "c")].
Proof.
  cbn zeta.
  exact (proj1 (call_headers_replace_defaults
                  {| defaultOptions := [("headers", VObj [("X-Default", VStr "d")])] |}
                  [("url", VStr "https://example.com/a");
                   ("headers", VObj [("X-Call", VStr "c")])]
                  eq_refl eq_refl)
               [("X-Call", VStr "c")] eq_refl).
Defined.

Lemma verb_forces_method_witness :
  let uri := Val (VObj [("url", VStr "https://example.com/a");
                        ("method", VStr "GET")]) in
  prop "method" (verb_options request "post" uri (Val VUndefined) (Val VUndefined))
  = VStr "POST".
Proof.
  cbn zeta.
  exact (proj1 (proj2 (verb_forces_method (H := Reference.platform)
                         (fun _ _ => Rejected (TransportFailure "unused"))
                         request "post"
                         (Val (VObj [("url", VStr "https://example.com/a");
                                     ("method", VStr "GET")]))
                         (Val VUndefined) (Val VUndefined)
                         ltac:(discriminate) eq_refl))).
Defined.

Lemma derived_defaults_lookup_witness :
  let self := {| defaultOptions := [("headers", VObj [("A", VStr "1")]);
                                    ("timeout", VNum 5)] |} in
  let y := [("headers", VObj [("B", VStr "2")])] in
  exists derived,
    defaults self (VObj y) = Normal derived
    /\ prop "timeout" (defaultOptions derived) = VNum 5
    /\ prop "headers" (defaultOptions derived)
       = VObj [("A", VStr "1"); ("B", VStr "2")].
Proof.
  cbn zeta.
  destruct (derived_defaults_lookup
              {| defaultOptions := [("headers", VObj [("A", VStr "1")]);
                                    ("timeout", VNum 5)] |}
              [("headers", VObj [("B", VStr "2")])] "timeout" eq_refl eq_refl)
    as (derived & Hd & Hk & _ & Hh).
  exists derived. split; [exact Hd|]. split.
  - apply Hk. discriminate.
  - apply Hh. reflexivity.
Defined.

Lemma jar_stores_cookies_of_any_response_witness :
  let res := {| status := 404; statusText := "Not Found";
                res_headers := [("set-cookie", "sid=1")];
                res_body := BodyAborted "" "reset" |} in
  let fetch : transport := fun _ _ => Fulfilled res in
  let options := [("url", VStr "https://example.com/a")] in
  let this := {| _options := options; _isPiped := false; _promise := Pending;
                 emitted := []; written := ""; destinations := [];
                 dr_phase := InFlight (Fulfilled res) |} in
  (JarRevision.callback_path fetch options (Some "")).2 = Some "sid=1"
  /\ (JarRevision.on_settled (Some "") (VStr "https://example.com/a") this).2
     = Some "sid=1".
Proof.
  cbn zeta.
  apply (@jar_stores_cookies_of_any_response Reference.platform string Reference.jar
           (fun _ _ => Fulfilled {| status := 404; statusText := "Not Found";
                                    res_headers := [("set-cookie", "sid=1")];
                                    res_body := BodyAborted "" "reset" |})
           [("url", VStr "https://example.com/a")] "" "sid=1"
           (VStr "https://example.com/a") _ _ "sid=1"
           {| _options := [("url", VStr "https://example.com/a")];
              _isPiped := false; _promise := Pending;
              emitted := []; written := ""; destinations := [];
              dr_phase := InFlight (Fulfilled
                            {| status := 404; statusText := "Not Found";
                               res_headers := [("set-cookie", "sid=1")];
                               res_body := BodyAborted "" "reset" |}) |}
           eq_refl eq_refl eq_refl ltac:(discriminate) eq_refl eq_refl).
Defined.

Lemma jar_changes_only_by_set_cookie_witness :
  let res := {| status := 200; statusText := "OK";
                res_headers := [("set-cookie", "sid=1")];
                res_body := BodyComplete "ok" |} in
  let fetch : transport := fun _ _ => Fulfilled res in
  let options := [("url", VStr "https://example.com/a")] in
  (JarRevision.callback_path fetch options (Some "")).2 <> Some ""
  /\ exists j j' url fo res c,
       Some "" = Some j
       /\ JarRevision.translateOptions options (Some "") = Normal (url, fo)
       /\ fetch url fo = Fulfilled res
       /\ JarRevision.headers_get "set-cookie" res = Some c
       /\ c <> ""
       /\ JarRevision.setCookie j c url = Normal j'
       /\ (JarRevision.callback_path fetch options (Some "")).2 = Some j'.
Proof.
  cbn zeta. split; [discriminate|].
  apply (@jar_changes_only_by_set_cookie Reference.platform string Reference.jar
           (fun _ _ => Fulfilled {| status := 200; statusText := "OK";
                                    res_headers := [("set-cookie", "sid=1")];
                                    res_body := BodyComplete "ok" |})
           [("url", VStr "https://example.com/a")] (Some "")).
  discriminate.
Defined.

Lemma jar_revision_callback_without_jar_witness :
  let res := {| status := 200; statusText := "OK"; res_headers := [];
                res_body := BodyComplete "ok" |} in
  let fetch : transport := fun _ _ => Fulfilled res in
  let options := [("url", VStr "https://example.com/a")] in
  (JarRevision.callback_path fetch options (@None string)).1
  = callback_path fetch options.
Proof.
  cbn zeta.
  pose proof (@jar_revision_callback_without_jar Reference.platform string
                Reference.jar
                (fun _ _ => Fulfilled {| status := 200; statusText := "OK";
                                         res_headers := [];
                                         res_body := BodyComplete "ok" |})
                [("url", VStr "https://example.com/a")] _ _ eq_refl) as Hx.
  cbn zeta in Hx. destruct Hx as [_ Hres].
  apply (Hres _ eq_refl). right. left. cbn. lia.
Defined.

Lemma instance_jar_carries_over_witness :
  let res := {| status := 200; statusText := "OK";
                res_headers := [("set-cookie", "sid=1")];
                res_body := BodyComplete "ok" |} in
  let fetch : transport := fun _ _ => Fulfilled res in
  let self := {| JarSession.ji_defaults := [("jar", VBool true)];
                 JarSession.instanceJar := @None string |} in
  (JarSession.mainRequest "" fetch self (Val (VStr "https://example.com/a"))
     (Val VUndefined) (Fun 1)).2
  = {| JarSession.ji_defaults := [("jar", VBool true)];
       JarSession.instanceJar := Some "sid=1" |}.
Proof.
  cbn zeta.
  pose proof (@instance_jar_carries_over Reference.platform string Reference.jar ""
                (fun _ _ => Fulfilled {| status := 200; statusText := "OK";
                                         res_headers := [("set-cookie", "sid=1")];
                                         res_body := BodyComplete "ok" |})
                {| JarSession.ji_defaults := [("jar", VBool true)];
                   JarSession.instanceJar := @None string |}
                (Val (VStr "https://example.com/a")) (Val VUndefined) (Fun 1)
                1%nat _ _ _ "sid=1" "sid=1"
                eq_refl eq_refl eq_refl eq_refl eq_refl ltac:(discriminate) eq_refl)
    as Hx.
  cbn zeta in Hx. exact (proj1 Hx).
Defined.

Lemma class_headers_never_reach_fetch_witness :
  let defaults := [("headers", VObj [("A", VStr "1")])] in
  let options := VObj [("url", VStr "https://example.com/a");
                       ("form", VObj [("a", VStr "1")])] in
  exists url fo,
    ClassVariant.wrapper_request defaults options = Normal (url, fo)
    /\ get "headers" fo = None.
Proof.
  cbn zeta. eexists. eexists. split; [reflexivity|].
  exact (class_headers_never_reach_fetch (H := Reference.platform)
           [("headers", VObj [("A", VStr "1")])]
           (VObj [("url", VStr "https://example.com/a");
                  ("form", VObj [("a", VStr "1")])]) _ _ eq_refl).
Defined.

Lemma class_defaults_override_the_call_witness :
  let defaults := [("method", VStr "PUT")] in
  let options := VObj [("url", VStr "https://example.com/a");
                       ("method", VStr "GET")] in
  exists url fo,
    ClassVariant.wrapper_request defaults options = Normal (url, fo)
    /\ get "method" fo = Some (ClassVariant.Raw (VStr "PUT")).
Proof.
  cbn zeta. eexists. eexists. split; [reflexivity|].
  apply (proj1 (class_defaults_override_the_call (H := Reference.platform)
                  [("method", VStr "PUT")]
                  (VObj [("url", VStr "https://example.com/a");
                         ("method", VStr "GET")]) _ _ eq_refl eq_refl));
    [discriminate | reflexivity].
Defined.

Lemma class_settles_with_the_body_witness :
  let res := {| status := 500; statusText := "Internal Server Error";
                res_headers := []; res_body := BodyComplete "oops" |} in
  let fetch : ClassVariant.class_transport := fun _ _ => Fulfilled res in
  ClassVariant.request (fun _ => "https://example.com/a") fetch []
    (VStr "https://example.com/a") (Val VUndefined)
  = ClassVariant.PromiseResolved (VStr "oops").
Proof.
  cbn zeta.
  pose proof (class_settles_with_the_body (H := Reference.platform)
                (fun _ => "https://example.com/a")
                (fun _ _ => Fulfilled
                              {| status := 500; statusText := "Internal Server Error";
                                 res_headers := []; res_body := BodyComplete "oops" |})
                [] (VStr "https://example.com/a") VUndefined _ _ _ 0%nat
                eq_refl eq_refl) as Hx.
  cbn zeta in Hx. exact (proj1 Hx).
Defined.

Lemma class_body_versus_canonical_witness :
  let res := {| status := 200; statusText := "OK"; res_headers := [];
                res_body := BodyComplete "not json" |} in
  let options := [("json", VBool true)] in
  consumeBody res options = Normal (VStr "not json")
  /\ ClassVariant.wrapper_parse res options = VStr ""
  /\ consumeBody res options <> Normal (ClassVariant.wrapper_parse res options).
Proof.
  cbn zeta. split; [reflexivity|]. split; [reflexivity|].
  intros Heq.
  apply (proj1 (class_body_versus_canonical (H := Reference.platform)
                  {| status := 200; statusText := "OK"; res_headers := [];
                     res_body := BodyComplete "not json" |}
                  [("json", VBool true)] "not json" eq_refl eq_refl) Heq).
  split; [reflexivity|]. split; [reflexivity | discriminate].
Defined.
Lemma class_verb_writes_to_callers_object_witness :
  let h : gmap nat (list (string * Heap.hval)) :=
    {[ 2%nat := [("url", Heap.HStr "https://example.com/a")] ]} in
  (ClassHeap.verb_options "POST" (Heap.HRef 2) h).2 !! 2%nat
  = Some [("url", Heap.HStr "https://example.com/a"); ("method", Heap.HStr "POST")].
Proof.
  cbn zeta.
  exact (proj1 (proj2 (ClassHeapFacts.class_verb_writes_to_callers_object "POST" 2%nat
                         [("url", Heap.HStr "https://example.com/a")]
                         {[ 2%nat := [("url", Heap.HStr "https://example.com/a")] ]}
                         eq_refl))).
Defined.
(** A callback written as [if (err) throw err], at a 404 response: it
    throws on its first invocation and is invoked again, with the same
    response and a null body. *)
Example rethrowing_callback_is_invoked_twice :
  let res := {| status := 404; statusText := "Not Found"; res_headers := [];
                res_body := BodyComplete "gone" |} in
  let fetch : transport := fun _ _ => Fulfilled res in
  let options := [("url", VStr "https://example.com/a")] in
  let r := {| statusCode := 404; headers := []; lr_body := Some (VStr "gone") |} in
  let err := LegacyStatusError "HTTP Error 404" r in
  callback_runs fetch options (fun _ c => cb_error c)
  = {| invocations :=
         [{| cb_when := Asynchronous; cb_error := Some err;
             cb_response := Some r; cb_body := VStr "gone" |};
          {| cb_when := Asynchronous; cb_error := Some err;
             cb_response := Some r; cb_body := VNull |}];
       escaped := Some (UnhandledRejection err) |}.
Proof. reflexivity. Qed.
End FurtherWitnesses.
